(** * The GEP genome (package [genome], file genome/genome.go)

    A shallow embedding of the [Genome] aggregate and of its operations:
    [New], [SymbolCount] with its helper [merge], [EvalBool], [EvalMath],
    [String], [Mutate], [Dup] and [Evaluate].

    Go objects reached through pointers ([*Genome], [*gene.Gene]) live in
    two heaps indexed by locations; a method with a pointer receiver is a
    computation in a state-and-abort monad over the [World] that holds the
    heaps, the random source behind [math/rand], the state of the channels
    and the trace of observable events (log lines and channel sends).  The [gene] package and the
    function registries are collaborators: their capabilities are the
    fields of the class [GeneOps] and of the record [FuncWeight]. *)

From Stdlib Require Import ZArith String PrimFloat Lia.
From stdpp Require Import gmap strings list fin_maps.

Open Scope Z_scope.

(** ** Go's [int] (64 bits, two's complement) *)

Module GoInt.

Definition min_int : Z := - 2 ^ 63.
Definition max_int : Z := 2 ^ 63 - 1.

Definition in_range (z : Z) : Prop := min_int <= z <= max_int.

(** Wrap-around of the mathematical result into the 64-bit range. *)
Definition wrap (z : Z) : Z := (z + 2 ^ 63) mod 2 ^ 64 - 2 ^ 63.

Definition add (a b : Z) : Z := wrap (a + b).
Definition sub (a b : Z) : Z := wrap (a - b).

End GoInt.

(** ** Pointers, registries, events *)

(** A location of one of the two heaps; a Go pointer is [option loc],
    [None] being [nil]. *)
Definition loc := positive.

(** Identity of a channel ([chan<- *Genome]); an identity without a
    channel state is the nil channel. *)
Definition chan := positive.

(** Modelled from the spec: what the code uses of [functions.FuncWeight],
    whose declaration is in another package: the two 4-ary capabilities
    of a registered symbol. *)
Record FuncWeight := mkFuncWeight {
  BoolFunction : bool -> bool -> bool -> bool -> bool;
  Float64Function : float -> float -> float -> float -> float;
}.

(** [functions.FuncMap], a [map[string]FuncWeight]. *)
Abbreviation FuncMap := (gmap string FuncWeight).

(** Observable events, in the order in which they happen. *)
Inductive event :=
| EvLog (msg : string)
| EvSend (c : chan) (g : loc).

(** What a trace delivered through channels: the sends, in order. *)
Definition sent (t : list event) : list (chan * loc) :=
  omap (fun e => match e with EvSend c g => Some (c, g) | EvLog _ => None end) t.

(** Why a computation does not return: a Go run-time panic, the process
    exit of [log.Fatalf], or a channel operation that has to wait (no
    other goroutine runs in the model, so that a send that blocks does
    not return). *)
Inductive abort :=
| Panic (why : string)
| Exit (code : Z)
| Blocked.

(** The state of a channel of [*Genome]: whether it is closed, how many
    values it can take now without blocking (free slots of its buffer
    plus receivers that wait), and the values it was sent, oldest
    first. *)
Record Chan := mkChan {
  chan_closed : bool;
  chan_room : nat;
  chan_got : list loc;
}.

(** The source of [math/rand]: an unbounded sequence of draws and the
    position of the next one. *)
Record Rand := mkRand {
  rand_draws : nat -> Z;
  rand_pos : nat;
}.

(** [rand.Intn n] for [0 < n]: the next draw, reduced into [[0, n)]. *)
Definition Intn (n : Z) (r : Rand) : Z * Rand :=
  (rand_draws r (rand_pos r) mod n,
   {| rand_draws := rand_draws r; rand_pos := S (rand_pos r) |}).

(** ** The Genome struct

    A slice is the list of its elements: no statement of the package
    assigns to an element of a slice that two genomes could share ([Dup]
    fills the slice it has just made).  A map is an optional finite map,
    [None] being the nil map. *)

Record Genome := mkGenome {
  Genes : list (option loc);           (* []*gene.Gene *)
  LinkFunc : string;
  Score : float;
  SymbolMap : option (gmap string Z);  (* map[string]int, nil until computed *)
}.

Definition with_Genes (gs : list (option loc)) (G : Genome) : Genome :=
  {| Genes := gs; LinkFunc := LinkFunc G; Score := Score G;
     SymbolMap := SymbolMap G |}.

Definition with_Score (v : float) (G : Genome) : Genome :=
  {| Genes := Genes G; LinkFunc := LinkFunc G; Score := v;
     SymbolMap := SymbolMap G |}.

Definition with_SymbolMap (m : option (gmap string Z)) (G : Genome) : Genome :=
  {| Genes := Genes G; LinkFunc := LinkFunc G; Score := Score G;
     SymbolMap := m |}.

(** Reading a [map[string]int]: a missing key, and any key of a nil map,
    reads as zero. *)
Definition map_get (m : gmap string Z) (k : string) : Z := default 0 (m !! k).

Definition map_get_opt (m : option (gmap string Z)) (k : string) : Z :=
  map_get (default ∅ m) k.

(** [len] of a slice, as an [int]. *)
Definition len {A} (l : list A) : Z := Z.of_nat (length l).

(** ** The Gene collaborator *)

(** Modelled from the spec: the capability set of [*gene.Gene], which is
    declared in another package.  [Gene] is the whole state of one gene.
    An evaluation and a symbol count may cache inside the gene (the
    comment of [SymbolCount] in genome.go relies on it), so they return
    the new state of the gene with their result; [Mutate] draws from the
    shared random source; [Dup] gives the state of the copy. *)
Class GeneOps (Gene : Type) := {
  gene_EvalBool : list bool -> FuncMap -> Gene -> bool * Gene;
  gene_EvalMath : list float -> Gene -> float * Gene;
  gene_SymbolCount : string -> Gene -> Z * Gene;
  gene_SymbolMap : Gene -> option (gmap string Z);
  gene_Mutate : Gene -> Rand -> Gene * Rand;
  gene_Dup : Gene -> Gene;
  gene_String : Gene -> string;
}.

Module genome.

Section Model.

Context {Gene : Type} `{GeneOps Gene}.

(** The numeric registry [mn.Math], a package-level table of another
    package. *)
Variable Math : FuncMap.

Record World := mkWorld {
  gene_heap : gmap loc Gene;
  genome_heap : gmap loc Genome;
  rand : Rand;
  trace : list event;
  chans : gmap chan Chan;
}.

Definition set_gene_heap (h : gmap loc Gene) (w : World) : World :=
  {| gene_heap := h; genome_heap := genome_heap w; rand := rand w;
     trace := trace w; chans := chans w |}.

Definition set_genome_heap (h : gmap loc Genome) (w : World) : World :=
  {| gene_heap := gene_heap w; genome_heap := h; rand := rand w;
     trace := trace w; chans := chans w |}.

Definition set_rand (r : Rand) (w : World) : World :=
  {| gene_heap := gene_heap w; genome_heap := genome_heap w; rand := r;
     trace := trace w; chans := chans w |}.

Definition emit (e : event) (w : World) : World :=
  {| gene_heap := gene_heap w; genome_heap := genome_heap w;
     rand := rand w; trace := trace w ++ [e]; chans := chans w |}.

Definition set_chans (cs : gmap chan Chan) (w : World) : World :=
  {| gene_heap := gene_heap w; genome_heap := genome_heap w;
     rand := rand w; trace := trace w; chans := cs |}.

(** *** The monad *)

Inductive outcome (A : Type) :=
| Ok (a : A) (w : World)
| Abort (e : abort) (w : World).
Global Arguments Ok {A} a w.
Global Arguments Abort {A} e w.

Definition M (A : Type) : Type := World -> outcome A.

Definition ret {A} (a : A) : M A := fun w => Ok a w.

Definition bind {A B} (m : M A) (k : A -> M B) : M B :=
  fun w => match m w with
           | Ok a w' => k a w'
           | Abort e w' => Abort e w'
           end.

Definition panic {A} (why : string) : M A := fun w => Abort (Panic why) w.

Notation "'let*' x ':=' m 'in' k" := (bind m (fun x => k))
  (at level 10, x name, m at level 100, k at level 200).
Notation "'do' m 'in' k" := (bind m (fun _ => k))
  (at level 10, m at level 100, k at level 200).

(** *** Primitive statements *)

(** [*g] for a [*Genome]. *)
Definition load (g : loc) : M Genome :=
  fun w => match genome_heap w !! g with
           | Some G => Ok G w
           | None => Abort (Panic "nil pointer dereference") w
           end.

(** [*g = G]. *)
Definition store (g : loc) (G : Genome) : M unit :=
  fun w => match genome_heap w !! g with
           | Some _ => Ok tt (set_genome_heap (<[g := G]> (genome_heap w)) w)
           | None => Abort (Panic "nil pointer dereference") w
           end.

(** [&Genome{...}]: a location that is not in use. *)
Definition new_genome (G : Genome) : M loc :=
  fun w => let l := fresh (dom (genome_heap w)) in
           Ok l (set_genome_heap (<[l := G]> (genome_heap w)) w).

(** [s[i]], with Go's bounds check. *)
Definition index {A} (s : list A) (i : Z) : M A :=
  if bool_decide (0 <= i) then
    match s !! Z.to_nat i with
    | Some x => ret x
    | None => panic "index out of range"
    end
  else panic "index out of range".

(** [s[i] = x], with Go's bounds check. *)
Definition assign_index {A} (s : list A) (i : Z) (x : A) : M (list A) :=
  if bool_decide (0 <= i < len s) then ret (<[Z.to_nat i := x]> s)
  else panic "index out of range".

Definition log_Printf (msg : string) : M unit :=
  fun w => Ok tt (emit (EvLog msg) w).

Definition log_Fatalf (msg : string) : M unit :=
  fun w => Abort (Exit 1) (emit (EvLog msg) w).

(** [c <- g].  A send on the nil channel blocks for ever; a send on a
    closed channel panics; a send on a channel that cannot take a value
    now has to wait; otherwise the channel takes the value. *)
Definition chan_send (c : chan) (g : loc) : M unit :=
  fun w => match chans w !! c with
           | None => Abort Blocked w
           | Some ch =>
               if chan_closed ch
               then Abort (Panic "send on closed channel") w
               else match chan_room ch with
                    | O => Abort Blocked w
                    | S room =>
                        Ok tt
                          (emit (EvSend c g)
                             (set_chans
                                (<[c := {| chan_closed := false;
                                           chan_room := room;
                                           chan_got := chan_got ch ++ [g] |}]>
                                   (chans w)) w))
                    end
           end.

(** [rand.Intn(n)], which panics unless [0 < n]. *)
Definition rand_Intn (n : Z) : M Z :=
  fun w => if bool_decide (0 < n)
           then let '(k, r) := Intn n (rand w) in Ok k (set_rand r w)
           else Abort (Panic "invalid argument to Intn") w.

(** *** Calls into the gene package

    A call with a nil receiver, or through a pointer to nothing, is
    outside the collaborator's contract: the model aborts. *)

Definition gene_call {A} (op : Gene -> A * Gene) (p : option loc) : M A :=
  fun w => match p with
           | Some l =>
               match gene_heap w !! l with
               | Some x => let '(a, x') := op x in
                           Ok a (set_gene_heap (<[l := x']> (gene_heap w)) w)
               | None => Abort (Panic "nil pointer dereference") w
               end
           | None => Abort (Panic "nil pointer dereference") w
           end.

(** A read of the gene that changes nothing. *)
Definition gene_read {A} (f : Gene -> A) (p : option loc) : M A :=
  fun w => match p with
           | Some l =>
               match gene_heap w !! l with
               | Some x => Ok (f x) w
               | None => Abort (Panic "nil pointer dereference") w
               end
           | None => Abort (Panic "nil pointer dereference") w
           end.

(** [p.Mutate()], which draws from the shared random source. *)
Definition gene_mutate (p : option loc) : M unit :=
  fun w => match p with
           | Some l =>
               match gene_heap w !! l with
               | Some x =>
                   let '(x', r) := gene_Mutate x (rand w) in
                   Ok tt (set_rand r
                            (set_gene_heap (<[l := x']> (gene_heap w)) w))
               | None => Abort (Panic "nil pointer dereference") w
               end
           | None => Abort (Panic "nil pointer dereference") w
           end.

(** [p.Dup()]: the copy is a new gene at a location not in use. *)
Definition gene_dup (p : option loc) : M (option loc) :=
  fun w => match p with
           | Some l =>
               match gene_heap w !! l with
               | Some x =>
                   let l' := fresh (dom (gene_heap w)) in
                   Ok (Some l')
                      (set_gene_heap (<[l' := gene_Dup x]> (gene_heap w)) w)
               | None => Abort (Panic "nil pointer dereference") w
               end
           | None => Abort (Panic "nil pointer dereference") w
           end.

(** *** Loops *)

(** [for i := a; i < n; i++ { s = body i s }]: [fuel] bounds the number
    of iterations.  Where the source has [len(g.Genes)] for [n], the bound
    is read when the loop is entered: no statement of a loop body assigns
    to the [Genes] of the genome whose genes it counts. *)
Fixpoint for_loop {St} (fuel : nat) (i n : Z) (body : Z -> St -> M St)
  (s : St) : M St :=
  match fuel with
  | O => ret s
  | S fuel' =>
      if bool_decide (i < n)
      then let* s' := body i s in for_loop fuel' (i + 1) n body s'
      else ret s
  end.

(** The loop with exactly the fuel it needs. *)
Definition for_range {St} (a n : Z) (body : Z -> St -> M St) (s : St)
  : M St :=
  for_loop (Z.to_nat (n - a)) a n body s.

(** [for _, v := range l { s = f v s }]. *)
Fixpoint for_each {A St} (f : A -> St -> M St) (l : list A) (s : St)
  : M St :=
  match l with
  | [] => ret s
  | v :: l' => let* s' := f v s in for_each f l' s'
  end.

(** *** genome.go *)

(** [New]: the genes and the linking function; the other fields are
    Go's zero values. *)
Definition New (genes : list (option loc)) (linkFunc : string) : M loc :=
  new_genome {| Genes := genes; LinkFunc := linkFunc; Score := 0%float;
                SymbolMap := None |}.

(** One iteration of [merge]: [dst[k] += v] on the map [dst] points to. *)
Definition merge_entry (dst : gmap string Z) (kv : string * Z)
  : gmap string Z :=
  <[kv.1 := GoInt.add (map_get dst kv.1) kv.2]> dst.

(** [merge], for one order of iteration over [src]. *)
Definition merge_in_order (dst : gmap string Z) (kvs : list (string * Z))
  : gmap string Z :=
  foldl merge_entry dst kvs.

(** The map [dst] once the entries of [src] have been added to it; a nil
    [src] has nothing to iterate over. *)
Definition merge_maps (dst : gmap string Z) (src : option (gmap string Z))
  : gmap string Z :=
  merge_in_order dst (map_to_list (default ∅ src)).

(** [merge]: the map behind [dst] after the call.  Go panics on the
    first assignment when that map is nil. *)
Definition merge (dst src : option (gmap string Z))
  : M (option (gmap string Z)) :=
  match dst with
  | Some d => ret (Some (merge_maps d src))
  | None =>
      if decide (default ∅ src = ∅) then ret None
      else panic "assignment to entry in nil map"
  end.

(** [m[k] = v]. *)
Definition map_assign (m : option (gmap string Z)) (k : string) (v : Z)
  : M (option (gmap string Z)) :=
  match m with
  | Some d => ret (Some (<[k := v]> d))
  | None => panic "assignment to entry in nil map"
  end.

(** The body of the loop of [SymbolCount]. *)
Definition SymbolCount_body (g : loc) (sym : string) (i : Z) (_ : unit)
  : M unit :=
  let* G := load g in
  let* p := index (Genes G) i in
  let* _ := gene_call (gene_SymbolCount sym) p in
  let* G := load g in
  let* p := index (Genes G) i in
  let* m := gene_read gene_SymbolMap p in
  let* G := load g in
  let* dst := merge (SymbolMap G) m in
  store g (with_SymbolMap dst G).

Definition SymbolCount (sym : string) (g : loc) : M Z :=
  let* G := load g in
  do (match SymbolMap G with
      | None =>
          do store g (with_SymbolMap (Some ∅) G) in
          let* G := load g in
          let* m := map_assign (SymbolMap G) (LinkFunc G)
                      (GoInt.sub (len (Genes G)) 1) in
          do store g (with_SymbolMap m G) in
          let* G := load g in
          for_range 0 (len (Genes G)) (SymbolCount_body g sym) tt
      | Some _ => ret tt
      end) in
  let* G := load g in
  ret (map_get_opt (SymbolMap G) sym).

Definition EvalBool (inp : list bool) (fm : FuncMap) (g : loc) : M bool :=
  let* G := load g in
  match fm !! LinkFunc G with
  | None =>
      do log_Printf ("Unable to find linking function: " +:+ LinkFunc G) in
      ret false
  | Some lf =>
      let* G := load g in
      let* p := index (Genes G) 0 in
      let* result := gene_call (gene_EvalBool inp fm) p in
      let* G := load g in
      for_range 1 (len (Genes G))
        (fun i result =>
           let* G := load g in
           let* p := index (Genes G) i in
           let* b := gene_call (gene_EvalBool inp fm) p in
           ret (BoolFunction lf result b false false))
        result
  end.

Definition EvalMath (inp : list float) (g : loc) : M float :=
  let* G := load g in
  match Math !! LinkFunc G with
  | None =>
      do log_Printf ("Unable to find linking function: " +:+ LinkFunc G) in
      ret 0%float
  | Some lf =>
      let* G := load g in
      let* p := index (Genes G) 0 in
      let* result := gene_call (gene_EvalMath inp) p in
      let* G := load g in
      for_range 1 (len (Genes G))
        (fun i result =>
           let* G := load g in
           let* p := index (Genes G) i in
           let* x := gene_call (gene_EvalMath inp) p in
           ret (Float64Function lf result x 0%float 0%float))
        result
  end.

(** [String] has a value receiver: it works on a copy of the struct. *)
Definition String (G : Genome) : M string :=
  let* result :=
    for_each
      (fun v result =>
         let* s := gene_read gene_String v in ret (result ++ [s]))
      (Genes G) [] in
  ret (String.concat ("|" +:+ LinkFunc G +:+ "|") result).

(** [g.String()] through a [*Genome]. *)
Definition String_of (g : loc) : M string :=
  let* G := load g in String G.

Definition Mutate_body (g : loc) (i : Z) (_ : unit) : M unit :=
  let* G := load g in
  let* n := rand_Intn (len (Genes G)) in
  let* G := load g in
  let* p := index (Genes G) n in
  gene_mutate p.

Definition Mutate (numMutations : Z) (g : loc) : M unit :=
  for_range 0 numMutations (Mutate_body g) tt.

Definition Dup_body (g dst : loc) (i : Z) (_ : unit) : M unit :=
  let* G := load g in
  let* p := index (Genes G) i in
  let* q := gene_dup p in
  let* D := load dst in
  let* gs := assign_index (Genes D) i q in
  store dst (with_Genes gs D).

Definition Dup (g : option loc) : M (option loc) :=
  match g with
  | None =>
      do log_Printf "denome.Dup error: src and dst must be non-nil" in
      ret None
  | Some g =>
      let* G := load g in
      let* dst :=
        new_genome {| Genes := replicate (length (Genes G)) None;
                      LinkFunc := LinkFunc G;
                      Score := Score G;
                      SymbolMap := None |} in
      let* G := load g in
      do for_range 0 (len (Genes G)) (Dup_body g dst) tt in
      ret (Some dst)
  end.

(** [ScoringFunc]: any Go function from a [*Genome] to a [float64]. *)
Definition ScoringFunc : Type := loc -> M float.

(** A call through a function value, which panics when it is nil. *)
Definition call_ScoringFunc (sf : option ScoringFunc) (g : loc) : M float :=
  match sf with
  | Some f => f g
  | None => panic "nil pointer dereference"
  end.

Definition Evaluate (sf : option ScoringFunc) (c : chan) (g : loc) : M unit :=
  do (match sf with
      | None => log_Fatalf "genome.Evaluate: ScoringFunc must not be nil"
      | Some _ => ret tt
      end) in
  let* v := call_ScoringFunc sf g in
  let* G := load g in
  do store g (with_Score v G) in
  chan_send c g.

End Model.

(** ** What the operations are compared with *)

Section Spec.

Context {Gene : Type} `{GeneOps Gene}.

(** The gene a pointer leads to, if any. *)
Definition gene_at (h : gmap loc Gene) (p : option loc) : option Gene :=
  match p with
  | Some l => h !! l
  | None => None
  end.

(** Every pointer of the slice leads to a gene. *)
Definition genes_allocated (h : gmap loc Gene) (ps : list (option loc))
  : Prop :=
  Forall (fun p => is_Some (gene_at h p)) ps.

(** The results of evaluating the genes [ps] one after the other, from
    left to right, each on the heap the evaluation before it left. *)
Fixpoint gene_evals {R} (ev : Gene -> R * Gene) (ps : list (option loc))
  (h : gmap loc Gene) : option (list R * gmap loc Gene) :=
  match ps with
  | [] => Some ([], h)
  | p :: ps' =>
      match p with
      | Some l =>
          match h !! l with
          | Some x =>
              match gene_evals ev ps' (<[l := (ev x).2]> h) with
              | Some (rs, h') => Some ((ev x).1 :: rs, h')
              | None => None
              end
          | None => None
          end
      | None => None
      end
  end.

(** A loop over a slice that also knows the index it is at, starting
    from index [i]. *)
Fixpoint for_each_at {A St} (f : nat -> A -> St -> @M Gene St) (i : nat)
  (l : list A) (s : St) : M St :=
  match l with
  | [] => ret s
  | v :: l' => bind (f i v s) (fun s' => for_each_at f (S i) l' s')
  end.

(** One step of the fold of [EvalBool] and [EvalMath]: evaluate the
    gene, link its value to the result so far. *)
Definition link_step {R} (ev : Gene -> R * Gene) (link : R -> R -> R)
  (p : option loc) (result : R) : M R :=
  bind (gene_call ev p) (fun b => ret (link result b)).

(** One step of the loop of [SymbolCount] at the gene [p]: force the
    accounting of the gene, merge its map into the map of the genome. *)
Definition account_step (sym : string) (g : loc) (p : option loc) (_ : unit)
  : @M Gene unit :=
  bind (gene_call (gene_SymbolCount sym) p) (fun _ =>
  bind (gene_read gene_SymbolMap p) (fun m =>
  bind (load g) (fun G =>
  bind (merge (SymbolMap G) m) (fun dst =>
    store g (with_SymbolMap dst G))))).

(** One step of the loop of [Dup] at index [i] and gene [p]: duplicate
    the gene, store the pointer to the copy in the slice of [dst]. *)
Definition dup_step (dst : loc) (i : nat) (p : option loc) (_ : unit)
  : @M Gene unit :=
  bind (gene_dup p) (fun q =>
  bind (load dst) (fun D =>
  bind (assign_index (Genes D) (Z.of_nat i) q) (fun gs =>
    store dst (with_Genes gs D)))).

(** The copies of the genes [ps], made one after the other: where they
    are, and the gene heap that holds them. *)
Fixpoint dup_genes (ps : list (option loc)) (h : gmap loc Gene)
  : list loc * gmap loc Gene :=
  match ps with
  | [] => ([], h)
  | p :: ps' =>
      match gene_at h p with
      | Some x =>
          let q := fresh (dom h) in
          let r := dup_genes ps' (<[q := gene_Dup x]> h) in
          (q :: r.1, r.2)
      | None => ([], h)
      end
  end.

(** The value a computation returns, or why it does not. *)
Definition result_of {A} (o : @outcome Gene A) : A + abort :=
  match o with
  | Ok a _ => inl a
  | Abort e _ => inr e
  end.

(** The world a computation leaves. *)
Definition world_of {A} (o : @outcome Gene A) : @World Gene :=
  match o with
  | Ok _ w => w
  | Abort _ w => w
  end.

(** The outcome [o] of a computation started in [w]: it returned [a],
    and of the world it changed the trace only, by the one log line
    [msg] at its end. *)
Definition only_logs {A} (o : @outcome Gene A) (w : @World Gene)
  (msg : string) (a : A) : Prop :=
  result_of o = inl a /\
  trace (world_of o) = trace w ++ [EvLog msg] /\
  genome_heap (world_of o) = genome_heap w /\
  gene_heap (world_of o) = gene_heap w /\
  rand (world_of o) = rand w /\
  chans (world_of o) = chans w.

(** Modelled from the spec: the Gene collaborator's evaluation contract
    (its [EvalBool] and [EvalMath] are deterministic for identical inputs
    and registries).  An evaluation may cache inside the gene, but what
    the gene evaluates to afterwards is what it evaluated to. *)
Definition eval_stable {R} (ev : Gene -> R * Gene) : Prop :=
  forall x, (ev (ev x).2).1 = (ev x).1.

(** The gene once its symbol accounting has been forced by a call of
    its [SymbolCount]. *)
Definition gene_forced (sym : string) (x : Gene) : Gene :=
  (gene_SymbolCount sym x).2.

(** A gene's own usage count of [sym]: the entry of [sym] in the
    [SymbolMap] the gene holds once its accounting has been forced. *)
Definition gene_usage (sym : string) (x : Gene) : Z :=
  map_get_opt (gene_SymbolMap (gene_forced sym x)) sym.

(** Modelled from the spec: the Gene collaborator's symbol-accounting
    contract ([SymbolCount(sym)] forces the gene's internal accounting,
    [SymbolMap] is the resulting per-gene map).  Forcing the accounting
    again does not change the count. *)
Definition accounting_stable (sym : string) : Prop :=
  forall x, gene_usage sym (gene_forced sym x) = gene_usage sym x.

(** The usage counts of [sym] by the genes of a slice, in order. *)
Definition gene_usages (sym : string) (h : gmap loc Gene)
  (ps : list (option loc)) : list Z :=
  (fun p => from_option (gene_usage sym) 0 (gene_at h p)) <$> ps.

Definition sumZ (l : list Z) : Z := foldr Z.add 0 l.

(** The counts of [k] in the maps that the genes of a slice hold once
    their accounting has been forced by a call for [sym], in order. *)
Definition forced_counts (sym k : string) (h : gmap loc Gene)
  (ps : list (option loc)) : list Z :=
  (fun p =>
     from_option
       (fun x => map_get_opt (gene_SymbolMap (gene_forced sym x)) k) 0
       (gene_at h p)) <$> ps.

(** What the genome itself adds to the count of [sym]: the linking
    function fires once per boundary between two genes. *)
Definition link_count (G : Genome) (sym : string) : Z :=
  if decide (sym = LinkFunc G) then len (Genes G) - 1 else 0.

(** Two genes that evaluate to the same value. *)
Definition gene_sim {R} (ev : Gene -> R * Gene) (x y : Gene) : Prop :=
  (ev x).1 = (ev y).1.

(** Two worlds with the same genomes, the same gene pointers in use, and
    genes that evaluate to the same values. *)
Definition world_sim {R} (ev : Gene -> R * Gene) (w w' : @World Gene) : Prop :=
  genome_heap w = genome_heap w' /\
  forall l, option_Forall2 (gene_sim ev) (gene_heap w !! l) (gene_heap w' !! l).

(** Two outcomes with the same result, in worlds as above. *)
Definition outcome_sim {R A} (ev : Gene -> R * Gene) (o o' : @outcome Gene A)
  : Prop :=
  result_of o = result_of o' /\ world_sim ev (world_of o) (world_of o').

(** A computation that cannot tell such worlds apart, and leaves such a
    world. *)
Definition quiet {R A} (ev : Gene -> R * Gene) (m : @M Gene A) : Prop :=
  (forall w w', world_sim ev w w' -> outcome_sim ev (m w) (m w')) /\
  (forall w, world_sim ev w (world_of (m w))).

(** Modelled from the spec: the Gene collaborator's [Dup] and [String]
    contract (a deep copy renders as its source does). *)
Definition dup_keeps_String : Prop :=
  forall x, gene_String (gene_Dup x) = gene_String x.

(** The rounds of a mutation.  A round draws an index [n] of the gene
    slice with [rand.Intn] and issues one call of the gene's own
    [Mutate] on the gene [x] that the pointer at [n] leads to: the gene
    becomes what [gene_Mutate] makes of [x], the random source what the
    call leaves of it, and nothing else changes.
    [mutation_rounds G k w w'] holds when [k] such rounds lead from [w]
    to [w']. *)
Inductive mutation_rounds (G : Genome)
  : nat -> @World Gene -> @World Gene -> Prop :=
| rounds_done w : mutation_rounds G 0 w w
| rounds_step k w n r l x x' r' w2 :
    Intn (len (Genes G)) (rand w) = (n, r) ->
    0 <= n < len (Genes G) ->
    Genes G !! Z.to_nat n = Some (Some l) ->
    gene_heap w !! l = Some x ->
    gene_Mutate x r = (x', r') ->
    mutation_rounds G k
      {| gene_heap := <[l := x']> (gene_heap w);
         genome_heap := genome_heap w;
         rand := r';
         trace := trace w;
         chans := chans w |} w2 ->
    mutation_rounds G (S k) w w2.

(** The renderings of the genes of a slice, in order. *)
Definition gene_Strings (h : gmap loc Gene) (ps : list (option loc))
  : list string :=
  (fun p => from_option gene_String EmptyString (gene_at h p)) <$> ps.

(** The Karva notation of a genome whose genes render as [ss]. *)
Definition karva (linkFunc : string) (ss : list string) : string :=
  String.concat ("|" +:+ linkFunc +:+ "|") ss.

(** The world [w'] differs from [w] at most in the genes at the pointers
    [ps] (and in the random source, which a mutation draws from). *)
Definition differ_only_at_genes (ps : list (option loc))
  (w w' : @World Gene) : Prop :=
  genome_heap w' = genome_heap w /\
  trace w' = trace w /\
  forall l, Some l ∉ ps -> gene_heap w' !! l = gene_heap w !! l.

(** The world [w1] is [w] but for what a [SymbolCount] on the genome [G]
    at [g] may change: the memoized map of that genome, and the genes of
    its slice. *)
Definition counted_from (g : loc) (G : Genome) (w w1 : @World Gene) : Prop :=
  (exists m,
      genome_heap w1 = <[g := with_SymbolMap (Some m) G]> (genome_heap w)) /\
  trace w1 = trace w /\
  rand w1 = rand w /\
  dom (gene_heap w1) = dom (gene_heap w) /\
  (forall l, Some l ∉ Genes G -> gene_heap w1 !! l = gene_heap w !! l).

End Spec.

(** ** A reference gene

  A small implementation of the collaborator's capabilities: a gene is
  its sequence of symbols and the symbol map it caches. *)

Module RefGene.

Record t := mk {
  symbols : list string;
  counted : option (gmap string Z);
}.

Definition count_symbols (l : list string) : gmap string Z :=
  foldr (fun s m => <[s := map_get m s + 1]> m) ∅ l.

(** The gene once its symbols are counted; the count is made once. *)
Definition accounted (x : t) : t :=
  mk (symbols x) (Some (default (count_symbols (symbols x)) (counted x))).

Definition SymbolCount (sym : string) (x : t) : Z * t :=
  (map_get_opt (counted (accounted x)) sym, accounted x).

Definition head_is (s : string) (x : t) : bool :=
  bool_decide (head (symbols x) = Some s).

(** An evaluation counts the symbols as it goes. *)
Definition EvalBool (inp : list bool) (fm : FuncMap) (x : t) : bool * t :=
  (head_is "T" x, accounted x).

Definition EvalMath (inp : list float) (x : t) : float * t :=
  ((if head_is "1" x then 1 else 0)%float, accounted x).

Definition Mutate (x : t) (r : Rand) : t * Rand :=
  let '(n, r') := Intn (len (symbols x)) r in
  (mk (<[Z.to_nat n := "x"]> (symbols x)) None, r').

Definition Dup (x : t) : t := mk (symbols x) None.

Definition String (x : t) : string := String.concat "." (symbols x).

#[global] Instance ops : GeneOps t := {|
  gene_EvalBool := EvalBool;
  gene_EvalMath := EvalMath;
  gene_SymbolCount := SymbolCount;
  gene_SymbolMap := counted;
  gene_Mutate := Mutate;
  gene_Dup := Dup;
  gene_String := String;
|}.

(** A registry with the linking function [OR]. *)
Definition OR : FuncWeight :=
  {| BoolFunction := fun a b _ _ => orb a b;
     Float64Function := fun a b _ _ => PrimFloat.add a b |}.

Definition registry : FuncMap := {[ "OR" := OR ]}.

Definition gene_ab : t := mk ["a"; "b"] None.
Definition gene_cd : t := mk ["c"; "d"] None.
Definition gene_T : t := mk ["T"; "a"] None.

Definition some_rand : Rand :=
  {| rand_draws := fun k => Z.of_nat k * 7 + 3; rand_pos := 0 |}.

(** A world with one genome, at location 1, of the two genes at
    locations 1 and 2. *)
Definition world2 (linkFunc : string) (m : option (gmap string Z)) : World :=
  {| gene_heap := {[ 1%positive := gene_ab; 2%positive := gene_cd ]};
     genome_heap := {[ 1%positive :=
                         {| Genes := [Some 1%positive; Some 2%positive];
                            LinkFunc := linkFunc; Score := 0%float;
                            SymbolMap := m |} ]};
     rand := some_rand;
     trace := [];
     chans := {[ 7%positive := {| chan_closed := false; chan_room := 1;
                                  chan_got := [] |} ]} |}.

(** The genome of [world2]. *)
Definition genome2 (linkFunc : string) (m : option (gmap string Z)) : Genome :=
  {| Genes := [Some 1%positive; Some 2%positive]; LinkFunc := linkFunc;
     Score := 0%float; SymbolMap := m |}.

End RefGene.

(** The world [RefGene.world2] after a first [SymbolCount], and after
    three mutations that follow it. *)
Definition world2_counted : @World RefGene.t :=
  world_of (SymbolCount "a" 1%positive (RefGene.world2 "OR" None)).

Definition world2_mutated : @World RefGene.t :=
  world_of (Mutate 3 1%positive world2_counted).

(** A world with one genome, at location 1, whose gene slice is [ps];
    the genes at locations 1 and 2 render as [a.b] and [T.a]. *)
Definition world_of_genes (ps : list (option loc)) : @World RefGene.t :=
  {| gene_heap := {[ 1%positive := RefGene.gene_ab;
                     2%positive := RefGene.gene_T ]};
     genome_heap := {[ 1%positive :=
                         {| Genes := ps; LinkFunc := "OR"; Score := 0%float;
                            SymbolMap := None |} ]};
     rand := RefGene.some_rand;
     trace := [];
     chans := ∅ |}.

(** A world with two genomes, at locations 1 and 2, over the same two
    genes in the two orders. *)
Definition world_two_orders : @World RefGene.t :=
  {| gene_heap := {[ 1%positive := RefGene.gene_ab;
                     2%positive := RefGene.gene_T ]};
     genome_heap := {[ 1%positive :=
                         {| Genes := [Some 1%positive; Some 2%positive];
                            LinkFunc := "OR"; Score := 0%float;
                            SymbolMap := None |};
                       2%positive :=
                         {| Genes := [Some 2%positive; Some 1%positive];
                            LinkFunc := "OR"; Score := 0%float;
                            SymbolMap := None |} ]};
     rand := RefGene.some_rand;
     trace := [];
     chans := ∅ |}.

(** A scoring function that panics. *)
Definition score_panics : @ScoringFunc RefGene.t :=
  fun _ w => Abort (Panic "no score") w.

(** A scoring function that finds every genome worth 750. *)
Definition score_750 : @ScoringFunc RefGene.t := fun _ w => Ok 750%float w.

(** ** Facts about Go's [int] *)

Module GoIntFacts.
Import GoInt.

Lemma wrap_in_range z : in_range (wrap z).
Proof.
  unfold in_range, wrap, min_int, max_int.
  pose proof (Z.mod_pos_bound (z + 2 ^ 63) (2 ^ 64) ltac:(lia)). lia.
Qed.

Lemma wrap_id z : in_range z -> wrap z = z.
Proof.
  unfold in_range, wrap, min_int, max_int. intros Hz.
  rewrite Z.mod_small; lia.
Qed.

Lemma wrap_add_l a b : wrap (wrap a + b) = wrap (a + b).
Proof.
  unfold wrap. f_equal.
  replace ((a + 2 ^ 63) mod 2 ^ 64 - 2 ^ 63 + b + 2 ^ 63)
    with ((a + 2 ^ 63) mod 2 ^ 64 + b) by lia.
  rewrite Zplus_mod_idemp_l. f_equal. lia.
Qed.

Lemma add_wrap_l a b : add (wrap a) b = wrap (a + b).
Proof. apply wrap_add_l. Qed.

Lemma add_0_r a : in_range a -> add a 0 = a.
Proof. intros. unfold add. rewrite Z.add_0_r. by apply wrap_id. Qed.

End GoIntFacts.

(** ** Facts about the monad and the loops *)

Section Facts.

Context {Gene : Type} `{GeneOps Gene}.

(** The numeric registry [mn.Math]. *)
Variable Math : FuncMap.

Implicit Types (w : @World Gene) (g : loc) (G : Genome).
Implicit Types (h : gmap loc Gene) (ps : list (option loc)).

Lemma bind_Ok {A B} (m : M A) (k : A -> M B) w a w' :
  m w = Ok a w' -> bind m k w = k a w'.
Proof. unfold bind. by intros ->. Qed.

Lemma bind_Abort {A B} (m : M A) (k : A -> M B) w e w' :
  m w = Abort e w' -> bind m k w = Abort e w'.
Proof. unfold bind. by intros ->. Qed.

Lemma bind_congr {A B} (m : M A) (k k' : A -> M B) w :
  (forall a w', m w = Ok a w' -> k a w' = k' a w') ->
  bind m k w = bind m k' w.
Proof. unfold bind. intros Hk. destruct (m w); [by apply Hk|done]. Qed.

Lemma bind_Ok_inv {A B} (m : M A) (k : A -> M B) w b w' :
  bind m k w = Ok b w' -> exists a w1, m w = Ok a w1 /\ k a w1 = Ok b w'.
Proof. unfold bind. destruct (m w) as [a w1|]; [eauto|done]. Qed.

Lemma load_Ok_inv w g G w' :
  load g w = Ok G w' -> w' = w /\ genome_heap w !! g = Some G.
Proof.
  unfold load. destruct (genome_heap w !! g); [|done]. by intros [= -> ->].
Qed.

Lemma store_Ok_inv w g G w' :
  store g G w = Ok tt w' ->
  w' = set_genome_heap (<[g := G]> (genome_heap w)) w.
Proof.
  unfold store. destruct (genome_heap w !! g); [|done]. by intros [= <-].
Qed.

(** What holds before a loop and is kept by every iteration that returns
    holds when the loop returns. *)
Lemma for_loop_invariant {St} (P : @World Gene -> Prop)
  (body : Z -> St -> M St) n :
  (forall i s w s' w', P w -> body i s w = Ok s' w' -> P w') ->
  forall fuel i s w s' w',
    P w -> for_loop fuel i n body s w = Ok s' w' -> P w'.
Proof.
  intros Hbody. induction fuel as [|fuel IH]; intros i s w s' w' HP; simpl.
  - by intros [= _ <-].
  - case_bool_decide; [|by intros [= _ <-]].
    intros (s1 & w1 & Hstep & Hrest)%bind_Ok_inv.
    eapply IH; [|exact Hrest]. eapply Hbody; eauto.
Qed.

Lemma load_Ok w g G : genome_heap w !! g = Some G -> load g w = Ok G w.
Proof. unfold load. by intros ->. Qed.

Lemma store_Ok w g G G' :
  genome_heap w !! g = Some G ->
  store g G' w = Ok tt (set_genome_heap (<[g := G']> (genome_heap w)) w).
Proof. unfold store. by intros ->. Qed.

Lemma index_Ok {A} (s : list A) (i : nat) x w :
  s !! i = Some x -> index s (Z.of_nat i) w = Ok x w.
Proof.
  intros Hx. unfold index. rewrite bool_decide_true by lia.
  by rewrite Nat2Z.id, Hx.
Qed.

Lemma index_Ok_inv {A} (s : list A) i x w w' :
  index s i w = Ok x w' -> w' = w /\ x ∈ s.
Proof.
  unfold index. case_bool_decide; [|done].
  destruct (s !! Z.to_nat i) as [y|] eqn:Hy; [|done].
  intros [= <- <-]. split; [done|]. by eapply list_elem_of_lookup_2.
Qed.

Lemma index_head {A} (x : A) (s : list A) w : index (x :: s) 0 w = Ok x w.
Proof. reflexivity. Qed.

Lemma for_loop_for_each_at {A St} (I : @World Gene -> Prop) (l : list A)
  (body : Z -> St -> M St) (f : nat -> A -> St -> M St) :
  (forall i x s w, I w -> l !! i = Some x ->
                   body (Z.of_nat i) s w = f i x s w) ->
  (forall i x s w s' w', I w -> l !! i = Some x ->
                         f i x s w = Ok s' w' -> I w') ->
  forall fuel a s w,
    I w -> fuel = (length l - a)%nat ->
    for_loop fuel (Z.of_nat a) (len l) body s w
    = for_each_at f a (drop a l) s w.
Proof.
  intros Hbody Hinv. induction fuel as [|fuel IH]; intros a s w HI Hfuel.
  - rewrite drop_ge by lia. reflexivity.
  - destruct (lookup_lt_is_Some_2 l a ltac:(lia)) as [x Hx].
    rewrite (drop_S _ _ _ Hx). simpl.
    rewrite bool_decide_true by (unfold len; lia).
    unfold bind at 1 2. rewrite (Hbody _ _ _ _ HI Hx).
    destruct (f a x s w) as [s' w'|e w'] eqn:Hf; [|done].
    replace (Z.of_nat a + 1) with (Z.of_nat (S a)) by lia.
    apply IH; [by eapply Hinv|lia].
Qed.

(** An index loop over a slice visits its elements from left to right. *)
Lemma for_range_for_each_at {A St} (I : @World Gene -> Prop) (l : list A)
  (body : Z -> St -> M St) (f : nat -> A -> St -> M St) :
  (forall i x s w, I w -> l !! i = Some x ->
                   body (Z.of_nat i) s w = f i x s w) ->
  (forall i x s w s' w', I w -> l !! i = Some x ->
                         f i x s w = Ok s' w' -> I w') ->
  forall a s w,
    I w ->
    for_range (Z.of_nat a) (len l) body s w
    = for_each_at f a (drop a l) s w.
Proof.
  intros Hbody Hinv a s w HI. unfold for_range.
  eapply for_loop_for_each_at; eauto. unfold len. lia.
Qed.

Lemma for_each_at_const {A St} (f : A -> St -> M St) i (l : list A) s w :
  for_each_at (fun _ => f) i l s w = for_each f l s w.
Proof.
  revert i s w. induction l as [|x l IH]; intros i s w; [done|].
  simpl. unfold bind. destruct (f x s w); [apply IH|done].
Qed.

Lemma for_range_empty {St} a n (body : Z -> St -> M St) s w :
  n <= a -> for_range a n body s w = Ok s w.
Proof.
  intros Hn. unfold for_range. by replace (Z.to_nat (n - a)) with 0%nat by lia.
Qed.

(** *** Calls into the gene package *)

Lemma gene_call_Ok {A} (op : Gene -> A * Gene) l x w :
  gene_heap w !! l = Some x ->
  gene_call op (Some l) w
  = Ok (op x).1 (set_gene_heap (<[l := (op x).2]> (gene_heap w)) w).
Proof. unfold gene_call. intros ->. by destruct (op x). Qed.

Lemma gene_read_Ok {A} (f : Gene -> A) l x w :
  gene_heap w !! l = Some x -> gene_read f (Some l) w = Ok (f x) w.
Proof. unfold gene_read. by intros ->. Qed.

Lemma gene_call_genome_heap {A} (op : Gene -> A * Gene) p w :
  genome_heap (world_of (gene_call op p w)) = genome_heap w.
Proof.
  unfold gene_call. destruct p as [l|]; [|done].
  destruct (gene_heap w !! l) as [x|]; [|done]. by destruct (op x).
Qed.

Lemma gene_read_Ok_inv {A} (f : Gene -> A) p a w w' :
  gene_read f p w = Ok a w' -> w' = w.
Proof.
  unfold gene_read. destruct p as [l|]; [|done].
  destruct (gene_heap w !! l); [|done]. by intros [= _ <-].
Qed.

(** The last statements of the body of the loop of [SymbolCount] keep a
    genome that has a map a genome that has a map. *)
Lemma merge_store_keeps_map g G m src w w' :
  genome_heap w !! g = Some (with_SymbolMap (Some m) G) ->
  bind (load g) (fun G =>
  bind (merge (SymbolMap G) src) (fun dst => store g (with_SymbolMap dst G)))
    w = Ok tt w' ->
  exists m', genome_heap w' !! g = Some (with_SymbolMap (Some m') G).
Proof.
  intros Hg (G1 & ? & [-> Hg1]%load_Ok_inv & Hrest)%bind_Ok_inv.
  rewrite Hg in Hg1. injection Hg1 as <-. simpl in Hrest.
  apply bind_Ok_inv in Hrest as (dst & w1 & [= <- <-] & ->%store_Ok_inv).
  eexists. simpl. by rewrite lookup_insert_eq.
Qed.

Lemma genes_allocated_insert h ps l x :
  is_Some (h !! l) ->
  genes_allocated h ps -> genes_allocated (<[l := x]> h) ps.
Proof.
  intros Hl Hall. eapply Forall_impl; [exact Hall|].
  intros [l'|]; simpl; [|done].
  rewrite lookup_insert. case_decide; eauto.
Qed.

Lemma genes_allocated_fresh h ps x :
  genes_allocated h ps -> genes_allocated (<[fresh (dom h) := x]> h) ps.
Proof.
  intros Hall. eapply Forall_impl; [exact Hall|].
  intros [l'|]; simpl; [|done].
  rewrite lookup_insert. case_decide; eauto.
Qed.

(** *** The evaluation loops *)

Lemma eval_loop_for_each {R} (ev : Gene -> R * Gene) (link : R -> R -> R)
  g G p0 ps r w :
  genome_heap w !! g = Some G ->
  Genes G = p0 :: ps ->
  for_range 1 (len (Genes G))
    (fun i result =>
       bind (load g) (fun G =>
       bind (index (Genes G) i) (fun p =>
       bind (gene_call ev p) (fun b => ret (link result b))))) r w
  = for_each (link_step ev link) ps r w.
Proof.
  intros Hg HG.
  transitivity
    (for_each_at (fun _ => link_step ev link) 1 (drop 1 (Genes G)) r w).
  2: { rewrite HG. simpl. rewrite drop_0. apply for_each_at_const. }
  apply (for_range_for_each_at (fun w => genome_heap w !! g = Some G)
           (Genes G) _ (fun _ => link_step ev link)) with (a := 1%nat);
    [| |done].
  - intros i x s w0 Hw0 Hx.
    rewrite (bind_Ok _ _ _ _ _ (load_Ok _ _ _ Hw0)).
    by rewrite (bind_Ok _ _ _ _ _ (index_Ok _ _ _ _ Hx)).
  - intros i x s w0 s' w' Hw0 _ Hstep. unfold link_step, bind in Hstep.
    pose proof (gene_call_genome_heap ev x w0) as Hframe.
    destruct (gene_call ev x w0); simpl in *; [|done].
    injection Hstep as _ <-. by rewrite Hframe.
Qed.

Lemma for_each_link_step {R} (ev : Gene -> R * Gene) (link : R -> R -> R)
  ps r w :
  genes_allocated (gene_heap w) ps ->
  exists rs h',
    gene_evals ev ps (gene_heap w) = Some (rs, h') /\
    for_each (link_step ev link) ps r w
    = Ok (foldl link r rs) (set_gene_heap h' w).
Proof.
  revert r w. induction ps as [|p ps IH]; intros r w Hall.
  - exists [], (gene_heap w). split; [done|]. by destruct w.
  - apply Forall_cons in Hall as [[x Hx] Hall].
    destruct p as [l|]; [simpl in Hx|done].
    destruct (IH (link r (ev x).1)
                (set_gene_heap (<[l := (ev x).2]> (gene_heap w)) w))
      as (rs & h' & Hevals & Hrun).
    { simpl. apply genes_allocated_insert; eauto. }
    simpl in Hevals. exists ((ev x).1 :: rs), h'. split.
    + simpl. by rewrite Hx, Hevals.
    + simpl. unfold link_step at 1.
      unfold bind at 1 2. rewrite (gene_call_Ok _ _ _ _ Hx).
      unfold ret. by rewrite Hrun.
Qed.

(** The evaluation of a genome whose linking function resolves. *)
Lemma eval_fold {R} (ev : Gene -> R * Gene) (link : R -> R -> R) g G w :
  genome_heap w !! g = Some G ->
  1 <= len (Genes G) ->
  genes_allocated (gene_heap w) (Genes G) ->
  exists r0 rs h',
    gene_evals ev (Genes G) (gene_heap w) = Some (r0 :: rs, h') /\
    bind (load g) (fun G =>
    bind (index (Genes G) 0) (fun p =>
    bind (gene_call ev p) (fun result =>
    bind (load g) (fun G =>
      for_range 1 (len (Genes G))
        (fun i result =>
           bind (load g) (fun G =>
           bind (index (Genes G) i) (fun p =>
           bind (gene_call ev p) (fun b => ret (link result b)))))
        result)))) w
    = Ok (foldl link r0 rs) (set_gene_heap h' w).
Proof.
  intros Hg Hlen Hall.
  destruct (Genes G) as [|p0 ps] eqn:HG; [unfold len in Hlen; simpl in Hlen; lia|].
  apply Forall_cons in Hall as [[x Hx] Hall].
  destruct p0 as [l|]; [simpl in Hx|done].
  destruct (for_each_link_step ev link ps (ev x).1
              (set_gene_heap (<[l := (ev x).2]> (gene_heap w)) w))
    as (rs & h' & Hevals & Hrun).
  { simpl. apply genes_allocated_insert; eauto. }
  simpl in Hevals. exists (ev x).1, rs, h'. split.
  { simpl. by rewrite Hx, Hevals. }
  rewrite (bind_Ok _ _ _ _ _ (load_Ok _ _ _ Hg)), HG.
  rewrite (bind_Ok _ _ _ _ _ (index_head _ _ _)).
  rewrite (bind_Ok _ _ _ _ _ (gene_call_Ok _ _ _ _ Hx)).
  rewrite (bind_Ok _ _ _ _ _ (load_Ok (set_gene_heap _ w) g G Hg)).
  rewrite (eval_loop_for_each ev link g G (Some l) ps); [|done..].
  apply Hrun.
Qed.

(** *** Evaluating twice *)

Section Quiet.

Context {R : Type} (ev : Gene -> R * Gene).
Hypothesis ev_stable : eval_stable ev.

Lemma world_sim_refl w : world_sim ev w w.
Proof.
  split; [done|]. intros l. destruct (gene_heap w !! l); by constructor.
Qed.

Lemma world_sim_trans w1 w2 w3 :
  world_sim ev w1 w2 -> world_sim ev w2 w3 -> world_sim ev w1 w3.
Proof.
  intros [Hg12 Hh12] [Hg23 Hh23]. split; [congruence|].
  intros l. specialize (Hh12 l). specialize (Hh23 l).
  destruct Hh12 as [x y Hxy|]; inversion Hh23; subst; constructor.
  unfold gene_sim in *. congruence.
Qed.

Lemma quiet_ret {A} (a : A) : quiet ev (ret a).
Proof.
  split; [|apply world_sim_refl]. intros w w' Hw. by split.
Qed.

Lemma quiet_panic {A} why : quiet ev (panic (A := A) why).
Proof.
  split; [|apply world_sim_refl]. intros w w' Hw. by split.
Qed.

Lemma quiet_bind {A B} (m : M A) (k : A -> M B) :
  quiet ev m -> (forall a, quiet ev (k a)) -> quiet ev (bind m k).
Proof.
  intros [Hm Hm'] Hk. split.
  - intros w w' Hw. unfold bind. destruct (Hm w w' Hw) as [Hr Hw1].
    destruct (m w) as [a w1|e w1], (m w') as [a' w1'|e' w1'];
      simpl in *; try done.
    + injection Hr as <-. by apply Hk.
    + injection Hr as <-. by split.
  - intros w. unfold bind. specialize (Hm' w).
    destruct (m w) as [a w1|e w1]; simpl in *; [|done].
    eapply world_sim_trans; [exact Hm'|]. apply Hk.
Qed.

Lemma quiet_load g : quiet ev (load g).
Proof.
  split.
  - intros w w' Hw. unfold load. destruct Hw as [Hg Hh]. rewrite <- Hg.
    destruct (genome_heap w !! g); by split.
  - intros w. unfold load.
    destruct (genome_heap w !! g); apply world_sim_refl.
Qed.

Lemma quiet_index {A} (s : list A) i : quiet ev (index s i).
Proof.
  unfold index. case_bool_decide; [|apply quiet_panic].
  destruct (s !! Z.to_nat i); [apply quiet_ret|apply quiet_panic].
Qed.

Lemma quiet_log_Printf msg : quiet ev (log_Printf msg).
Proof.
  split.
  - intros w w' [Hg Hh]. by split.
  - intros w. split; [done|]. intros l. simpl.
    destruct (gene_heap w !! l); by constructor.
Qed.

Lemma quiet_gene_call p : quiet ev (gene_call ev p).
Proof.
  split.
  - intros w w' [Hg Hh]. unfold gene_call.
    destruct p as [l|]; [|by split].
    pose proof (Hh l) as Hl.
    destruct Hl as [x y Hxy|]; [|by split].
    destruct (ev x) as [a x'] eqn:Hx, (ev y) as [b y'] eqn:Hy.
    unfold gene_sim in Hxy. rewrite Hx, Hy in Hxy. simpl in Hxy. subst b.
    split; [done|]. split; [done|]. intros l'. simpl.
    rewrite !lookup_insert. case_decide; [|apply Hh].
    constructor. unfold gene_sim.
    pose proof (ev_stable x) as Sx. pose proof (ev_stable y) as Sy.
    rewrite Hx in Sx. rewrite Hy in Sy. simpl in *. congruence.
  - intros w. unfold gene_call. destruct p as [l|]; [|apply world_sim_refl].
    destruct (gene_heap w !! l) as [x|] eqn:Hl; [|apply world_sim_refl].
    destruct (ev x) as [a x'] eqn:Hx. split; [done|]. intros l'. simpl.
    rewrite lookup_insert. case_decide as Hll.
    + subst l'. rewrite Hl. constructor. unfold gene_sim.
      pose proof (ev_stable x) as Sx. rewrite Hx in Sx. simpl in Sx.
      by rewrite Hx, Sx.
    + destruct (gene_heap w !! l'); by constructor.
Qed.

Lemma quiet_for_loop {St} (body : Z -> St -> M St) n :
  (forall i s, quiet ev (body i s)) ->
  forall fuel i s, quiet ev (for_loop fuel i n body s).
Proof.
  intros Hbody. induction fuel as [|fuel IH]; intros i s; simpl.
  - apply quiet_ret.
  - case_bool_decide; [|apply quiet_ret].
    apply quiet_bind; [apply Hbody|]. intros s'. apply IH.
Qed.

(** Running a quiet computation again gives the result it gave, and the
    genomes are as they were. *)
Lemma quiet_twice {A} (m : M A) w :
  quiet ev m ->
  result_of (m (world_of (m w))) = result_of (m w) /\
  genome_heap (world_of (m w)) = genome_heap w /\
  genome_heap (world_of (m (world_of (m w)))) = genome_heap w.
Proof.
  intros [Hresp Hself].
  pose proof (Hself w) as H1.
  destruct (Hresp _ _ H1) as [Hr H2].
  split; [done|]. destruct H1 as [Hg1 _], H2 as [Hg2 _]. split; congruence.
Qed.

End Quiet.

Ltac quiet_step :=
  first [ apply quiet_ret | apply quiet_panic | apply quiet_load
        | apply quiet_index | apply quiet_log_Printf
        | apply quiet_gene_call; assumption
        | apply quiet_for_loop; intros ? ?
        | apply quiet_bind; [|intros ?] ].

Lemma quiet_EvalBool inp fm g :
  eval_stable (gene_EvalBool inp fm) ->
  quiet (gene_EvalBool inp fm) (EvalBool inp fm g).
Proof.
  intros Hstable. unfold EvalBool, for_range.
  apply quiet_bind; [apply quiet_load|]. intros G.
  destruct (fm !! LinkFunc G); repeat quiet_step.
Qed.

Lemma quiet_EvalMath inp g :
  eval_stable (gene_EvalMath inp) ->
  quiet (gene_EvalMath inp) (EvalMath Math inp g).
Proof.
  intros Hstable. unfold EvalMath, for_range.
  apply quiet_bind; [apply quiet_load|]. intros G.
  destruct (Math !! LinkFunc G); repeat quiet_step.
Qed.

(** C1: for a genome with at least one gene whose linking function
    resolves in the registry, [EvalBool] evaluates gene 0 on its own and
    then folds the genes 1..N-1 from left to right, each step computing
    [result = link(result, evaluation of gene i, false, false)], and
    returns the last result; [EvalMath] does the same in the numeric
    registry with [0.0, 0.0] for the two fixed arguments. *)
Theorem Eval_folds_left_to_right w g G :
  genome_heap w !! g = Some G ->
  1 <= len (Genes G) ->
  genes_allocated (gene_heap w) (Genes G) ->
  (forall inp fm lf,
      fm !! LinkFunc G = Some lf ->
      exists b0 bs h',
        gene_evals (gene_EvalBool inp fm) (Genes G) (gene_heap w)
        = Some (b0 :: bs, h') /\
        EvalBool inp fm g w
        = Ok (foldl (fun result b => BoolFunction lf result b false false)
                b0 bs)
             (set_gene_heap h' w)) /\
  (forall inp lf,
      Math !! LinkFunc G = Some lf ->
      exists x0 xs h',
        gene_evals (gene_EvalMath inp) (Genes G) (gene_heap w)
        = Some (x0 :: xs, h') /\
        EvalMath Math inp g w
        = Ok (foldl (fun result x =>
                       Float64Function lf result x 0%float 0%float) x0 xs)
             (set_gene_heap h' w)).
Proof.
  intros Hg Hlen Hall. split.
  - intros inp fm lf Hlf.
    destruct (eval_fold (gene_EvalBool inp fm)
                (fun result b => BoolFunction lf result b false false)
                g G w Hg Hlen Hall) as (b0 & bs & h' & Hevals & Hrun).
    exists b0, bs, h'. split; [done|].
    unfold EvalBool. rewrite (bind_Ok _ _ _ _ _ (load_Ok _ _ _ Hg)), Hlf.
    exact Hrun.
  - intros inp lf Hlf.
    destruct (eval_fold (gene_EvalMath inp)
                (fun result x => Float64Function lf result x 0%float 0%float)
                g G w Hg Hlen Hall) as (x0 & xs & h' & Hevals & Hrun).
    exists x0, xs, h'. split; [done|].
    unfold EvalMath. rewrite (bind_Ok _ _ _ _ _ (load_Ok _ _ _ Hg)), Hlf.
    exact Hrun.
Qed.

(** C4: when the linking function of a genome does not resolve in the
    boolean registry, [EvalBool] logs a diagnostic and returns [false];
    when it does not resolve in the numeric registry, [EvalMath] logs a
    diagnostic and returns [0.0]; both calls return, neither aborts: the
    trace is the trace before with the one log line at its end, and the
    rest of the world is as it was. *)
Theorem Eval_unresolved_link w g G :
  genome_heap w !! g = Some G ->
  (forall inp fm,
      fm !! LinkFunc G = None ->
      EvalBool inp fm g w
      = Ok false
          (emit (EvLog ("Unable to find linking function: " +:+ LinkFunc G))
             w) /\
      only_logs (EvalBool inp fm g w) w
        ("Unable to find linking function: " +:+ LinkFunc G) false) /\
  (forall inp,
      Math !! LinkFunc G = None ->
      EvalMath Math inp g w
      = Ok 0%float
          (emit (EvLog ("Unable to find linking function: " +:+ LinkFunc G))
             w) /\
      only_logs (EvalMath Math inp g w) w
        ("Unable to find linking function: " +:+ LinkFunc G) 0%float).
Proof.
  intros Hg. split.
  - intros inp fm Hlf.
    assert (EvalBool inp fm g w
            = Ok false
                (emit (EvLog ("Unable to find linking function: "
                              +:+ LinkFunc G)) w)) as Hrun.
    { unfold EvalBool.
      by rewrite (bind_Ok _ _ _ _ _ (load_Ok _ _ _ Hg)), Hlf. }
    split; [done|]. rewrite Hrun. by repeat split.
  - intros inp Hlf.
    assert (EvalMath Math inp g w
            = Ok 0%float
                (emit (EvLog ("Unable to find linking function: "
                              +:+ LinkFunc G)) w)) as Hrun.
    { unfold EvalMath.
      by rewrite (bind_Ok _ _ _ _ _ (load_Ok _ _ _ Hg)), Hlf. }
    split; [done|]. rewrite Hrun. by repeat split.
Qed.

(** C9: for a fixed registry and fixed inputs, two consecutive calls of
    [EvalBool] (of [EvalMath]) give the same result, and neither call
    changes the genes, the linking function or the score of any genome. *)
Theorem Eval_twice g w :
  (forall inp fm,
      eval_stable (gene_EvalBool inp fm) ->
      let first := EvalBool inp fm g w in
      let second := EvalBool inp fm g (world_of first) in
      result_of second = result_of first /\
      genome_heap (world_of first) = genome_heap w /\
      genome_heap (world_of second) = genome_heap w) /\
  (forall inp,
      eval_stable (gene_EvalMath inp) ->
      let first := EvalMath Math inp g w in
      let second := EvalMath Math inp g (world_of first) in
      result_of second = result_of first /\
      genome_heap (world_of first) = genome_heap w /\
      genome_heap (world_of second) = genome_heap w).
Proof.
  split.
  - intros inp fm Hstable. apply (quiet_twice (gene_EvalBool inp fm)).
    by apply quiet_EvalBool.
  - intros inp Hstable. apply (quiet_twice (gene_EvalMath inp)).
    by apply quiet_EvalMath.
Qed.

(** *** Symbol accounting *)

Lemma merge_in_order_lookup (kvs : list (string * Z)) :
  forall (dst : gmap string Z) k,
    NoDup kvs.*1 ->
    merge_in_order dst kvs !! k
    = match (list_to_map kvs : gmap string Z) !! k with
      | Some v => Some (GoInt.add (map_get dst k) v)
      | None => dst !! k
      end.
Proof.
  induction kvs as [|[k0 v0] kvs IH]; intros dst k Hnodup; [done|].
  apply NoDup_cons in Hnodup as [Hk0 Hnodup].
  unfold merge_in_order in *. simpl. rewrite (IH _ _ Hnodup).
  unfold merge_entry, map_get. simpl.
  destruct (decide (k = k0)) as [->|Hne].
  - rewrite lookup_insert_eq.
    rewrite (not_elem_of_list_to_map_1 _ _ Hk0).
    by rewrite lookup_insert_eq.
  - by rewrite !(lookup_insert_ne _ k0 k) by done.
Qed.

Lemma merge_maps_lookup (dst : gmap string Z) (src : option (gmap string Z)) k :
  merge_maps dst src !! k
  = match default ∅ src !! k with
    | Some v => Some (GoInt.add (map_get dst k) v)
    | None => dst !! k
    end.
Proof.
  unfold merge_maps.
  rewrite merge_in_order_lookup by apply NoDup_fst_map_to_list.
  by rewrite list_to_map_to_list.
Qed.

(** X2: Go iterates over a map in an order that is not specified; in
    whatever order [merge] meets the entries of [src], the map it leaves
    is the same. *)
Lemma merge_order_irrelevant (dst src : gmap string Z) kvs :
  kvs ≡ₚ map_to_list src -> merge_in_order dst kvs = merge_maps dst (Some src).
Proof.
  intros Hperm. apply map_eq. intros k.
  assert (NoDup kvs.*1) as Hnodup.
  { rewrite Hperm. apply NoDup_fst_map_to_list. }
  rewrite merge_maps_lookup, (merge_in_order_lookup _ _ _ Hnodup). simpl.
  assert ((list_to_map kvs : gmap string Z) = src) as ->; [|done].
  rewrite <- (list_to_map_to_list src).
  by apply list_to_map_proper.
Qed.

Lemma map_get_merge_maps (dst : gmap string Z) src k :
  GoInt.in_range (map_get dst k) ->
  map_get (merge_maps dst src) k
  = GoInt.add (map_get dst k) (map_get_opt src k).
Proof.
  intros Hrange. unfold map_get_opt, map_get at 1 3.
  rewrite merge_maps_lookup.
  destruct (default ∅ src !! k) as [v|]; simpl; [done|].
  symmetry. by apply GoIntFacts.add_0_r.
Qed.

Lemma sumZ_cons z l : sumZ (z :: l) = z + sumZ l.
Proof. reflexivity. Qed.

Lemma sumZ_zero l : Forall (fun u => u = 0) l -> sumZ l = 0.
Proof.
  induction 1 as [|u us Hu _ IH]; [done|]. rewrite sumZ_cons, Hu, IH. lia.
Qed.

(** Forcing the accounting of a gene does not change the counts of the
    genes of [ps], when forcing is stable or the gene is not among them. *)
Lemma gene_usages_forced sym h ps l x :
  accounting_stable sym \/ Some l ∉ ps ->
  h !! l = Some x ->
  gene_usages sym (<[l := gene_forced sym x]> h) ps = gene_usages sym h ps.
Proof.
  intros Hwhy Hx. unfold gene_usages. apply Forall_fmap_ext_1.
  apply Forall_forall. intros [l'|] Hin; [simpl|done].
  destruct (decide (l = l')) as [<-|Hne].
  - rewrite lookup_insert_eq, Hx. simpl.
    destruct Hwhy as [Hstable|Hnotin]; [apply Hstable|done].
  - by rewrite lookup_insert_ne.
Qed.

Lemma account_step_Ok sym g G m l x w :
  genome_heap w !! g = Some (with_SymbolMap (Some m) G) ->
  gene_heap w !! l = Some x ->
  account_step sym g (Some l) tt w
  = Ok tt
      (set_genome_heap
         (<[g := with_SymbolMap
                   (Some (merge_maps m (gene_SymbolMap (gene_forced sym x))))
                   G]>
            (genome_heap w))
         (set_gene_heap (<[l := gene_forced sym x]> (gene_heap w)) w)).
Proof.
  intros Hg Hx. unfold account_step, gene_forced.
  unfold bind, gene_call, gene_read, load, store. rewrite Hx.
  destruct (gene_SymbolCount sym x) as [n x']. simpl.
  rewrite lookup_insert_eq.
  change (genome_heap (set_gene_heap (<[l:=x']> (gene_heap w)) w))
    with (genome_heap w).
  rewrite Hg. simpl.
  change (genome_heap (set_gene_heap (<[l:=x']> (gene_heap w)) w))
    with (genome_heap w).
  by rewrite Hg.
Qed.

Lemma account_loop sym g G ps :
  accounting_stable sym \/ NoDup ps ->
  forall m w,
    genome_heap w !! g = Some (with_SymbolMap (Some m) G) ->
    genes_allocated (gene_heap w) ps ->
    GoInt.in_range (map_get m sym) ->
    exists m' h',
      for_each (account_step sym g) ps tt w
      = Ok tt (set_genome_heap
                 (<[g := with_SymbolMap (Some m') G]> (genome_heap w))
                 (set_gene_heap h' w)) /\
      dom h' = dom (gene_heap w) /\
      map_get m' sym
      = GoInt.wrap (map_get m sym + sumZ (gene_usages sym (gene_heap w) ps)).
Proof.
  intros Hwhy. induction ps as [|p ps IH]; intros m w Hg Hall Hrange.
  - exists m, (gene_heap w). split; [|split; [done|]].
    + simpl. unfold ret. f_equal. destruct w; simpl in *. unfold set_genome_heap.
      simpl. f_equal. symmetry. by apply insert_id.
    + simpl. rewrite Z.add_0_r. symmetry. by apply GoIntFacts.wrap_id.
  - apply Forall_cons in Hall as [[x Hx] Hall].
    destruct p as [l|]; [simpl in Hx|done].
    assert (accounting_stable sym \/ Some l ∉ ps) as Hhead.
    { destruct Hwhy as [?|Hnodup]; [by left|right].
      by apply NoDup_cons in Hnodup as [? _]. }
    assert (accounting_stable sym \/ NoDup ps) as Htail.
    { destruct Hwhy as [?|Hnodup]; [by left|right].
      by apply NoDup_cons in Hnodup as [_ ?]. }
    pose proof (account_step_Ok sym g G m l x w Hg Hx) as Hstep.
    set (m1 := merge_maps m (gene_SymbolMap (gene_forced sym x))) in *.
    set (w1 := set_genome_heap _ _) in Hstep.
    assert (map_get m1 sym = GoInt.wrap (map_get m sym + gene_usage sym x))
      as Hm1 by (by apply map_get_merge_maps).
    destruct (IH Htail m1 w1) as (m' & h' & Hrun & Hdom & Hm').
    { subst w1. simpl. apply lookup_insert_eq. }
    { subst w1. simpl. apply genes_allocated_insert; eauto. }
    { rewrite Hm1. apply GoIntFacts.wrap_in_range. }
    exists m', h'. split; [|split].
    + simpl. rewrite (bind_Ok _ _ _ _ _ Hstep), Hrun. subst w1. simpl.
      unfold set_genome_heap, set_gene_heap. simpl.
      by rewrite insert_insert_eq.
    + rewrite Hdom. subst w1. simpl. apply dom_insert_lookup_L. eauto.
    + rewrite Hm', Hm1. subst w1. simpl.
      rewrite (gene_usages_forced _ _ _ _ _ Hhead Hx), Hx. simpl.
      rewrite GoIntFacts.wrap_add_l. f_equal. lia.
Qed.

Lemma SymbolCount_body_step sym g G i p w :
  genome_heap w !! g = Some G ->
  Genes G !! i = Some p ->
  SymbolCount_body g sym (Z.of_nat i) tt w = account_step sym g p tt w.
Proof.
  intros Hg Hp. unfold SymbolCount_body, account_step.
  rewrite (bind_Ok _ _ _ _ _ (load_Ok _ _ _ Hg)).
  rewrite (bind_Ok _ _ _ _ _ (index_Ok _ _ _ _ Hp)).
  apply bind_congr. intros a w1 Hcall.
  pose proof (gene_call_genome_heap (gene_SymbolCount sym) p w) as Hframe.
  rewrite Hcall in Hframe. simpl in Hframe. rewrite <- Hframe in Hg.
  rewrite (bind_Ok _ _ _ _ _ (load_Ok _ _ _ Hg)).
  by rewrite (bind_Ok _ _ _ _ _ (index_Ok _ _ _ _ Hp)).
Qed.

(** The first call of [SymbolCount], on a genome whose map is nil. *)
Lemma SymbolCount_computes sym g G w :
  accounting_stable sym \/ NoDup (Genes G) ->
  genome_heap w !! g = Some G ->
  SymbolMap G = None ->
  genes_allocated (gene_heap w) (Genes G) ->
  exists m' h',
    SymbolCount sym g w
    = Ok (map_get m' sym)
        (set_genome_heap (<[g := with_SymbolMap (Some m') G]> (genome_heap w))
           (set_gene_heap h' w)) /\
    dom h' = dom (gene_heap w) /\
    map_get m' sym
    = GoInt.wrap (link_count G sym
                  + sumZ (gene_usages sym (gene_heap w) (Genes G))).
Proof.
  intros Hwhy Hg Hnil Hall.
  set (m0 := <[LinkFunc G := GoInt.sub (len (Genes G)) 1]> (∅ : gmap string Z)).
  set (GA := with_SymbolMap (Some ∅) G).
  set (wA := set_genome_heap (<[g := GA]> (genome_heap w)) w).
  set (GB := with_SymbolMap (Some m0) G).
  set (wB := set_genome_heap (<[g := GB]> (genome_heap wA)) wA).
  assert (genome_heap wA !! g = Some GA) as HA by apply lookup_insert_eq.
  assert (genome_heap wB !! g = Some GB) as HB by apply lookup_insert_eq.
  assert (map_get m0 sym = GoInt.wrap (link_count G sym)) as Hm0.
  { unfold map_get, link_count, m0. case_decide as Hsym.
    - subst sym. by rewrite lookup_insert_eq.
    - rewrite lookup_insert_ne by done. by rewrite lookup_empty. }
  destruct (account_loop sym g G (Genes G) Hwhy m0 wB HB Hall)
    as (m' & h' & Hrun & Hdom & Hm').
  { rewrite Hm0. apply GoIntFacts.wrap_in_range. }
  assert (for_range 0 (len (Genes G)) (SymbolCount_body g sym) tt wB
          = for_each (account_step sym g) (Genes G) tt wB) as Hloop.
  { transitivity
      (for_each_at (fun _ => account_step sym g) 0 (drop 0 (Genes G)) tt wB).
    2: { rewrite drop_0. apply for_each_at_const. }
    apply (for_range_for_each_at
             (fun w => exists m, genome_heap w !! g
                                 = Some (with_SymbolMap (Some m) G))
             (Genes G) _ (fun _ => account_step sym g))
      with (a := 0%nat).
    - intros i p [] w1 [m Hw1] Hp.
      by apply (SymbolCount_body_step sym g _ i p w1 Hw1).
    - intros i p [] w1 [] w2 [m Hw1] Hp Hstep.
      unfold account_step in Hstep.
      apply bind_Ok_inv in Hstep as (a & w3 & Hcall & Hstep).
      pose proof (gene_call_genome_heap (gene_SymbolCount sym) p w1)
        as Hframe. rewrite Hcall in Hframe. simpl in Hframe.
      apply bind_Ok_inv in Hstep as (src & ? & ->%gene_read_Ok_inv & Hstep).
      rewrite <- Hframe in Hw1.
      exact (merge_store_keeps_map g G m src w3 w2 Hw1 Hstep).
    - by exists m0. }
  exists m', h'. split; [|split; [done|]].
  - unfold SymbolCount.
    rewrite (bind_Ok _ _ _ _ _ (load_Ok _ _ _ Hg)), Hnil.
    erewrite (bind_Ok (bind (store _ _) _)).
    2: { rewrite (bind_Ok _ _ _ _ _ (store_Ok w g G GA Hg)).
         rewrite (bind_Ok _ _ _ _ _ (load_Ok wA g GA HA)).
         unfold bind at 1. simpl.
         rewrite (bind_Ok _ _ _ _ _ (store_Ok wA g GA _ HA)).
         rewrite (bind_Ok _ _ _ _ _ (load_Ok wB g GB HB)).
         change (Genes GB) with (Genes G). rewrite Hloop. exact Hrun. }
    rewrite (bind_Ok _ _ _ _ _
               (load_Ok (set_genome_heap _ (set_gene_heap h' wB)) g _
                  (lookup_insert_eq _ _ _))).
    unfold ret, map_get_opt. simpl. f_equal.
    unfold set_genome_heap, set_gene_heap. simpl.
    by rewrite !insert_insert_eq.
  - by rewrite Hm', Hm0, GoIntFacts.wrap_add_l.
Qed.

(** C2: the first call of [SymbolCount] with the symbol [s] returns
    [N - 1] if [s] is the linking function and [0] otherwise, plus the sum
    over the genes of each gene's own usage count of [s], given the
    symbol-accounting contract of the genes.  The sum is the sum of Go's
    [int]: it is the exact sum whenever that fits an [int].  In particular
    the count of the linking function is [N - 1] when no gene uses it. *)
Theorem SymbolCount_first_call sym g G w :
  accounting_stable sym ->
  genome_heap w !! g = Some G ->
  SymbolMap G = None ->
  1 <= len (Genes G) ->
  genes_allocated (gene_heap w) (Genes G) ->
  let total :=
    link_count G sym + sumZ (gene_usages sym (gene_heap w) (Genes G)) in
  exists v w',
    SymbolCount sym g w = Ok v w' /\
    v = GoInt.wrap total /\
    (GoInt.in_range total -> v = total) /\
    (sym = LinkFunc G ->
     Forall (fun u => u = 0) (gene_usages sym (gene_heap w) (Genes G)) ->
     len (Genes G) <= GoInt.max_int ->
     v = len (Genes G) - 1).
Proof.
  intros Hstable Hg Hnil Hlen Hall total.
  destruct (SymbolCount_computes sym g G w (or_introl Hstable) Hg Hnil Hall)
    as (m' & h' & Hrun & _ & Hm').
  eexists _, _. split; [exact Hrun|]. fold total in Hm'.
  split; [done|]. split.
  - intros Hrange. rewrite Hm'. by apply GoIntFacts.wrap_id.
  - intros Hsym Hzero Hmax. rewrite Hm'.
    pose proof (sumZ_zero _ Hzero) as Hsum.
    unfold total, link_count. rewrite Hsum, decide_True by done.
    rewrite Z.add_0_r. apply GoIntFacts.wrap_id.
    unfold GoInt.in_range, GoInt.min_int, GoInt.max_int in *. lia.
Qed.

Lemma SymbolCount_body_keeps_map sym g i w w' :
  (exists G m, genome_heap w !! g = Some G /\ SymbolMap G = Some m) ->
  SymbolCount_body g sym i tt w = Ok tt w' ->
  exists G m, genome_heap w' !! g = Some G /\ SymbolMap G = Some m.
Proof.
  intros (G & m & Hg & Hm). unfold SymbolCount_body.
  intros (G1 & ? & [-> _]%load_Ok_inv & H1)%bind_Ok_inv.
  apply bind_Ok_inv in H1 as (p1 & ? & [-> _]%index_Ok_inv & H2).
  apply bind_Ok_inv in H2 as (a & w3 & Hcall & H3).
  pose proof (gene_call_genome_heap (gene_SymbolCount sym) p1 w) as Hframe.
  rewrite Hcall in Hframe. simpl in Hframe.
  apply bind_Ok_inv in H3 as (G2 & ? & [-> _]%load_Ok_inv & H4).
  apply bind_Ok_inv in H4 as (p2 & ? & [-> _]%index_Ok_inv & H5).
  apply bind_Ok_inv in H5 as (src & ? & ->%gene_read_Ok_inv & H6).
  rewrite <- Hframe in Hg.
  assert (G = with_SymbolMap (Some m) G) as HG.
  { destruct G; simpl in *. by subst. }
  rewrite HG in Hg.
  destruct (merge_store_keeps_map g G m src w3 w' Hg H6) as [m' Hg'].
  eexists _, _. split; [exact Hg'|done].
Qed.

(** A call of [SymbolCount] that returns leaves a map in the genome, and
    returns the entry of the symbol in that map. *)
Lemma SymbolCount_leaves_map sym g w v w1 :
  SymbolCount sym g w = Ok v w1 ->
  exists G1 m,
    genome_heap w1 !! g = Some G1 /\ SymbolMap G1 = Some m /\
    v = map_get m sym.
Proof.
  unfold SymbolCount.
  intros (G & w0 & [-> Hg]%load_Ok_inv & Hrest)%bind_Ok_inv.
  apply bind_Ok_inv in Hrest as ([] & w2 & Hbranch & Hrest).
  apply bind_Ok_inv in Hrest as (G1 & w3 & [-> Hg1]%load_Ok_inv & Hret).
  injection Hret as <- <-.
  assert (exists G m, genome_heap w2 !! g = Some G /\ SymbolMap G = Some m)
    as (G' & m & Hg' & Hm).
  { destruct (SymbolMap G) as [m|] eqn:Hmap.
    - injection Hbranch as <-. eauto.
    - apply bind_Ok_inv in Hbranch as ([] & wA & HA%store_Ok_inv & Hbranch).
      apply bind_Ok_inv in Hbranch as (GA & ? & [-> HgA]%load_Ok_inv & Hbranch).
      apply bind_Ok_inv in Hbranch as (mB & ? & HmB & Hbranch).
      destruct (SymbolMap GA) as [mA|]; [|done]. injection HmB as <- <-.
      apply bind_Ok_inv in Hbranch as ([] & wB & HB%store_Ok_inv & Hbranch).
      apply bind_Ok_inv in Hbranch as (GB & ? & [-> HgB]%load_Ok_inv & Hloop).
      unfold for_range in Hloop.
      eapply (for_loop_invariant
                (fun w => exists G m,
                     genome_heap w !! g = Some G /\ SymbolMap G = Some m));
        [| |exact Hloop].
      + intros i [] wi [] wi' Hwi Hbody.
        by eapply SymbolCount_body_keeps_map.
      + subst wB. eexists _, _. split; [apply lookup_insert_eq|done]. }
  rewrite Hg' in Hg1. injection Hg1 as <-.
  exists G', m. split; [done|]. split; [done|].
  unfold map_get_opt. by rewrite Hm.
Qed.

(** C3: [SymbolCount] is memoized once and for all.  After a call that
    returned, a later call with the same symbol returns the same value
    and changes nothing (the map is not computed again), whatever happened
    in between to the genes, to the gene slice, to the linking function or
    to anything else than the map kept in the genome. *)
Theorem SymbolCount_memoized sym g w v w1 :
  SymbolCount sym g w = Ok v w1 ->
  forall w2,
    SymbolMap <$> genome_heap w2 !! g = SymbolMap <$> genome_heap w1 !! g ->
    SymbolCount sym g w2 = Ok v w2.
Proof.
  intros (G1 & m & Hg1 & Hm & ->)%SymbolCount_leaves_map w2 Hsame.
  rewrite Hg1 in Hsame. simpl in Hsame. rewrite Hm in Hsame.
  destruct (genome_heap w2 !! g) as [G2|] eqn:Hg2; [|done].
  injection Hsame as Hm2. unfold SymbolCount.
  rewrite (bind_Ok _ _ _ _ _ (load_Ok _ _ _ Hg2)), Hm2.
  unfold bind at 1. simpl.
  rewrite (bind_Ok _ _ _ _ _ (load_Ok _ _ _ Hg2)).
  unfold ret, map_get_opt. by rewrite Hm2.
Qed.

(** *** Rendering *)

Lemma String_loop ps acc w :
  genes_allocated (gene_heap w) ps ->
  for_each (fun v result =>
              bind (gene_read gene_String v) (fun s => ret (result ++ [s])))
    ps acc w
  = Ok (acc ++ gene_Strings (gene_heap w) ps) w.
Proof.
  revert acc. induction ps as [|p ps IH]; intros acc Hall; simpl.
  - by rewrite app_nil_r.
  - apply Forall_cons in Hall as [[x Hx] Hall].
    destruct p as [l|]; [simpl in Hx|done].
    unfold bind at 1 2. rewrite (gene_read_Ok _ _ _ _ Hx).
    unfold ret. rewrite (IH _ Hall). simpl. rewrite Hx. simpl.
    by rewrite <- app_assoc.
Qed.

Lemma String_renders G w :
  genes_allocated (gene_heap w) (Genes G) ->
  String G w
  = Ok (karva (LinkFunc G) (gene_Strings (gene_heap w) (Genes G))) w.
Proof.
  intros Hall. unfold String.
  by rewrite (bind_Ok _ _ _ _ _ (String_loop _ [] _ Hall)).
Qed.

Lemma String_of_renders g G w :
  genome_heap w !! g = Some G ->
  genes_allocated (gene_heap w) (Genes G) ->
  String_of g w
  = Ok (karva (LinkFunc G) (gene_Strings (gene_heap w) (Genes G))) w.
Proof.
  intros Hg Hall. unfold String_of.
  rewrite (bind_Ok _ _ _ _ _ (load_Ok _ _ _ Hg)). by apply String_renders.
Qed.

(** C8: [String] returns the renderings of the genes joined with the
    separator ["|" + linkFunc + "|"]; it stores nothing, so that every
    call renders the genes as they are then; a genome of two genes that
    render as [a.b] and [c.d], linked by [OR], renders as [a.b|OR|c.d]. *)
Theorem String_joins_genes G w :
  genes_allocated (gene_heap w) (Genes G) ->
  String G w
  = Ok (String.concat ("|" +:+ LinkFunc G +:+ "|")
          (gene_Strings (gene_heap w) (Genes G))) w /\
  (forall l0 l1 x0 x1,
      Genes G = [Some l0; Some l1] ->
      LinkFunc G = "OR" ->
      gene_heap w !! l0 = Some x0 -> gene_String x0 = "a.b" ->
      gene_heap w !! l1 = Some x1 -> gene_String x1 = "c.d" ->
      String G w = Ok "a.b|OR|c.d" w).
Proof.
  intros Hall.
  assert (String G w
          = Ok (String.concat ("|" +:+ LinkFunc G +:+ "|")
                  (gene_Strings (gene_heap w) (Genes G))) w) as Hjoin.
  { by apply String_renders. }
  split; [done|].
  intros l0 l1 x0 x1 HG Hlf H0 Hs0 H1 Hs1. rewrite Hjoin, HG, Hlf.
  unfold gene_Strings. simpl. rewrite H0, H1. simpl. by rewrite Hs0, Hs1.
Qed.

(** *** Scoring *)

Lemma Evaluate_up_to_the_send (sf : ScoringFunc) c g w v w1 G :
  sf g w = Ok v w1 ->
  genome_heap w1 !! g = Some G ->
  Evaluate (Some sf) c g w
  = chan_send c g
      (set_genome_heap (<[g := with_Score v G]> (genome_heap w1)) w1).
Proof.
  intros Hsf Hg. unfold Evaluate. unfold bind at 1. simpl.
  rewrite (bind_Ok _ _ _ _ _ Hsf).
  rewrite (bind_Ok _ _ _ _ _ (load_Ok _ _ _ Hg)).
  by rewrite (bind_Ok _ _ _ _ _ (store_Ok _ _ _ _ Hg)).
Qed.

(** C5: [Evaluate] without a scoring function logs and exits the process,
    and nothing is sent.  With a scoring function [sf] that returns the
    value [v], it writes [v] into the score of the genome, and of the
    genome nothing else; then, through a sink that can take a value (an
    open channel with room in its buffer or a receiver that waits), it
    sends that same genome, once: the trace and the sink get this one
    send at their end.  A closed sink makes it panic, and a nil sink or
    one that cannot take a value makes it wait, the score written and
    nothing delivered. *)
Theorem Evaluate_scores_and_sends c g w :
  (result_of (Evaluate None c g w) = inr (Exit 1) /\
   trace (world_of (Evaluate None c g w))
   = trace w ++ [EvLog "genome.Evaluate: ScoringFunc must not be nil"] /\
   sent (trace (world_of (Evaluate None c g w))) = sent (trace w) /\
   chans (world_of (Evaluate None c g w)) = chans w /\
   genome_heap (world_of (Evaluate None c g w)) = genome_heap w) /\
  (forall (sf : ScoringFunc) v w1 G,
      sf g w = Ok v w1 ->
      genome_heap w1 !! g = Some G ->
      let o := Evaluate (Some sf) c g w in
      (genome_heap (world_of o) !! g
       = Some {| Genes := Genes G; LinkFunc := LinkFunc G; Score := v;
                 SymbolMap := SymbolMap G |} /\
       (forall g', g' <> g ->
                   genome_heap (world_of o) !! g' = genome_heap w1 !! g') /\
       gene_heap (world_of o) = gene_heap w1) /\
      (forall ch room,
          chans w1 !! c = Some ch ->
          chan_closed ch = false ->
          chan_room ch = S room ->
          result_of o = inl tt /\
          trace (world_of o) = trace w1 ++ [EvSend c g] /\
          sent (trace (world_of o)) = sent (trace w1) ++ [(c, g)] /\
          chans (world_of o) !! c
          = Some {| chan_closed := false; chan_room := room;
                    chan_got := chan_got ch ++ [g] |} /\
          (forall c', c' <> c ->
                      chans (world_of o) !! c' = chans w1 !! c')) /\
      (forall ch,
          chans w1 !! c = Some ch ->
          chan_closed ch = true ->
          result_of o = inr (Panic "send on closed channel") /\
          trace (world_of o) = trace w1 /\
          chans (world_of o) = chans w1) /\
      (chans w1 !! c = None \/
       (exists ch, chans w1 !! c = Some ch /\
                   chan_closed ch = false /\ chan_room ch = 0%nat) ->
       result_of o = inr Blocked /\
       trace (world_of o) = trace w1 /\
       chans (world_of o) = chans w1)).
Proof.
  split.
  - split; [reflexivity|]. split; [reflexivity|]. simpl. unfold sent.
    by rewrite omap_app, app_nil_r.
  - intros sf v w1 G Hsf Hg o. subst o.
    rewrite (Evaluate_up_to_the_send sf c g w v w1 G Hsf Hg).
    unfold chan_send. simpl.
    split; [|split; [|split]].
    + destruct (chans w1 !! c) as [ch|]; [|simpl].
      * destruct (chan_closed ch); [simpl|destruct (chan_room ch); simpl].
        all: split; [apply lookup_insert_eq|];
          split; [by intros g' Hg'; rewrite lookup_insert_ne|done].
      * split; [apply lookup_insert_eq|].
        split; [by intros g' Hg'; rewrite lookup_insert_ne|done].
    + intros ch room -> -> ->. simpl.
      split; [done|]. split; [done|].
      split; [unfold sent; by rewrite omap_app|].
      split; [apply lookup_insert_eq|].
      by intros c' Hc'; rewrite lookup_insert_ne.
    + by intros ch -> ->.
    + intros [->|(ch & -> & -> & ->)]; by repeat split.
Qed.

(** *** Mutation *)

Lemma gene_mutate_Ok l x w :
  gene_heap w !! l = Some x ->
  gene_mutate (Some l) w
  = Ok tt (set_rand (gene_Mutate x (rand w)).2
             (set_gene_heap (<[l := (gene_Mutate x (rand w)).1]> (gene_heap w))
                w)).
Proof. unfold gene_mutate. intros ->. by destruct (gene_Mutate x (rand w)). Qed.

Lemma Intn_range n r : 0 < n -> 0 <= (Intn n r).1 < n.
Proof. intros Hn. simpl. apply Z.mod_pos_bound. lia. Qed.

Lemma rand_Intn_Ok n w :
  0 < n ->
  rand_Intn n w = Ok (Intn n (rand w)).1 (set_rand (Intn n (rand w)).2 w).
Proof. intros Hn. unfold rand_Intn. by rewrite bool_decide_true. Qed.

Lemma Mutate_loop k g G fuel :
  1 <= len (Genes G) ->
  forall i w,
    genome_heap w !! g = Some G ->
    genes_allocated (gene_heap w) (Genes G) ->
    fuel = Z.to_nat (k - i) ->
    exists w',
      for_loop fuel i k (Mutate_body g) tt w = Ok tt w' /\
      mutation_rounds G fuel w w' /\
      genome_heap w' = genome_heap w /\
      dom (gene_heap w') = dom (gene_heap w).
Proof.
  intros Hlen. induction fuel as [|fuel IH]; intros i w Hg Hall Hfuel.
  - exists w. repeat split. constructor.
  - simpl. rewrite bool_decide_true by lia.
    pose proof (Intn_range (len (Genes G)) (rand w) ltac:(lia)) as Hn.
    destruct (Intn (len (Genes G)) (rand w)) as [n r] eqn:HIntn.
    simpl in Hn.
    assert (Z.to_nat n < length (Genes G))%nat as Hlt
        by (unfold len in *; lia).
    destruct (lookup_lt_is_Some_2 (Genes G) (Z.to_nat n) Hlt) as [p Hp].
    pose proof (proj1 (Forall_lookup _ _) Hall _ _ Hp) as [x Hx].
    destruct p as [l|]; [simpl in Hx|done].
    set (w1 := set_rand (gene_Mutate x r).2
                 (set_gene_heap (<[l := (gene_Mutate x r).1]> (gene_heap w))
                    w)).
    assert (Mutate_body g i tt w = Ok tt w1) as Hbody.
    { unfold Mutate_body.
      rewrite (bind_Ok _ _ _ _ _ (load_Ok _ _ _ Hg)).
      rewrite (bind_Ok _ _ _ _ _
                 (rand_Intn_Ok (len (Genes G)) w ltac:(lia))), HIntn.
      simpl fst. simpl snd.
      rewrite (bind_Ok _ _ _ _ _ (load_Ok (set_rand r w) _ _ Hg)).
      replace n with (Z.of_nat (Z.to_nat n)) at 1 by lia.
      rewrite (bind_Ok _ _ _ _ _ (index_Ok _ _ _ _ Hp)).
      by rewrite (gene_mutate_Ok l x (set_rand r w) Hx). }
    destruct (IH (i + 1) w1) as (w' & Hrun & Hrounds & Hgh & Hdom);
      [done| |lia|].
    { simpl. apply genes_allocated_insert; eauto. }
    exists w'. rewrite (bind_Ok _ _ _ _ _ Hbody). split; [done|].
    split; [|split].
    + eapply (rounds_step G fuel w n r l x (gene_Mutate x r).1
                (gene_Mutate x r).2); eauto.
      by destruct (gene_Mutate x r).
    + by rewrite Hgh.
    + rewrite Hdom. simpl. apply dom_insert_lookup_L. eauto.
Qed.

(** C7: [Mutate k] changes nothing when [k <= 0]; when [1 <= k], on a
    genome with at least one gene, it runs exactly [k] rounds, each of
    which selects an index in [[0, len(genes))] and issues one call of
    the mutation of the gene at that index; no genome changes, so the
    gene sequence keeps its length, and the same genes stay allocated. *)
Theorem Mutate_issues_k_rounds k g w :
  (k <= 0 -> Mutate k g w = Ok tt w) /\
  (forall G,
      1 <= k ->
      genome_heap w !! g = Some G ->
      1 <= len (Genes G) ->
      genes_allocated (gene_heap w) (Genes G) ->
      exists w',
        Mutate k g w = Ok tt w' /\
        mutation_rounds G (Z.to_nat k) w w' /\
        genome_heap w' = genome_heap w /\
        dom (gene_heap w') = dom (gene_heap w)).
Proof.
  split.
  - intros Hk. unfold Mutate. by apply for_range_empty.
  - intros G Hk Hg Hlen Hall. unfold Mutate, for_range.
    replace (k - 0) with k by lia.
    eapply Mutate_loop; eauto. f_equal. lia.
Qed.

(** *** Duplication *)

Lemma gene_dup_Ok l x w :
  gene_heap w !! l = Some x ->
  gene_dup (Some l) w
  = Ok (Some (fresh (dom (gene_heap w))))
      (set_gene_heap (<[fresh (dom (gene_heap w)) := gene_Dup x]> (gene_heap w))
         w).
Proof. unfold gene_dup. by intros ->. Qed.

Lemma assign_index_Ok {A} (s : list A) (i : nat) x w :
  (i < length s)%nat ->
  assign_index s (Z.of_nat i) x w = Ok (<[i := x]> s) w.
Proof.
  intros Hi. unfold assign_index.
  rewrite bool_decide_true by (unfold len; lia). by rewrite Nat2Z.id.
Qed.

Lemma dup_loop d ps :
  forall done w D,
    genome_heap w !! d = Some D ->
    Genes D = (Some <$> done) ++ replicate (length ps) None ->
    genes_allocated (gene_heap w) ps ->
    for_each_at (dup_step d) (length done) ps tt w
    = Ok tt
        (set_genome_heap
           (<[d := with_Genes
                     ((Some <$> done)
                        ++ (Some <$> (dup_genes ps (gene_heap w)).1)) D]>
              (genome_heap w))
           (set_gene_heap (dup_genes ps (gene_heap w)).2 w)).
Proof.
  induction ps as [|p ps IH]; intros done w D Hd HD Hall.
  - simpl in *. unfold ret. f_equal. rewrite <- HD.
    destruct w, D; simpl in *. unfold set_genome_heap, with_Genes. simpl.
    f_equal. symmetry. by apply insert_id.
  - apply Forall_cons in Hall as [[x Hx] Hall].
    destruct p as [l|]; [simpl in Hx|done].
    set (q := fresh (dom (gene_heap w))).
    set (w1 := set_gene_heap (<[q := gene_Dup x]> (gene_heap w)) w).
    set (gs := (Some <$> (done ++ [q])) ++ replicate (length ps) None).
    set (w2 := set_genome_heap (<[d := with_Genes gs D]> (genome_heap w1)) w1).
    assert (dup_step d (length done) (Some l) tt w = Ok tt w2) as Hstep.
    { unfold dup_step.
      rewrite (bind_Ok _ _ _ _ _ (gene_dup_Ok _ _ _ Hx)). fold q. fold w1.
      rewrite (bind_Ok _ _ _ _ _ (load_Ok w1 _ _ Hd)).
      rewrite (bind_Ok _ _ _ _ _
                 (assign_index_Ok (Genes D) (length done) (Some q) w1
                    ltac:(rewrite HD, length_app, length_fmap; simpl; lia))).
      rewrite (store_Ok w1 _ _ _ Hd). unfold w2. do 3 f_equal.
      unfold gs. rewrite HD. simpl.
      rewrite fmap_app, <- app_assoc. simpl.
      rewrite insert_app_r_alt by (rewrite length_fmap; lia).
      by rewrite length_fmap, Nat.sub_diag. }
    simpl for_each_at. rewrite (bind_Ok _ _ _ _ _ Hstep).
    replace (S (length done)) with (length (done ++ [q]))
      by (rewrite length_app; simpl; lia).
    rewrite (IH (done ++ [q]) w2 (with_Genes gs D)).
    + simpl. rewrite Hx. fold q. simpl. unfold set_genome_heap, set_gene_heap.
      simpl. rewrite insert_insert_eq. do 3 f_equal.
      unfold with_Genes. simpl. f_equal.
      by rewrite fmap_app, <- app_assoc.
    + unfold w2. simpl. apply lookup_insert_eq.
    + done.
    + unfold w2, w1. simpl. by apply genes_allocated_fresh.
Qed.

Lemma gene_at_fresh h p x :
  is_Some (gene_at h p) ->
  gene_at (<[fresh (dom h) := x]> h) p = gene_at h p.
Proof.
  destruct p as [l|]; [simpl|done]. intros Hl.
  apply lookup_insert_ne. intros <-.
  apply (is_fresh (dom h)). by apply elem_of_dom.
Qed.

(** The copies are new, distinct, hold the duplicates of the genes in
    order, and no gene that was there is touched. *)
Lemma dup_genes_spec ps :
  forall h,
    genes_allocated h ps ->
    length (dup_genes ps h).1 = length ps /\
    NoDup (dup_genes ps h).1 /\
    Forall (fun q => h !! q = None) (dup_genes ps h).1 /\
    h ⊆ (dup_genes ps h).2 /\
    (forall i p q,
        ps !! i = Some p -> (dup_genes ps h).1 !! i = Some q ->
        (dup_genes ps h).2 !! q = gene_Dup <$> gene_at h p).
Proof.
  induction ps as [|p ps IH]; intros h Hall.
  - simpl. repeat split; [constructor|constructor|done|done].
  - apply Forall_cons in Hall as [[x Hx] Hall]. simpl. rewrite Hx. simpl.
    set (q := fresh (dom h)).
    assert (h !! q = None) as Hq.
    { apply not_elem_of_dom. apply is_fresh. }
    destruct (IH (<[q := gene_Dup x]> h)) as (Hlen & Hnodup & Hnew & Hsub & Hat).
    { by apply genes_allocated_fresh. }
    assert (h ⊆ <[q := gene_Dup x]> h) as Hsub0 by by apply insert_subseteq.
    split; [by rewrite Hlen|]. split; [|split; [|split]].
    + apply NoDup_cons. split; [|done]. intros Hin.
      pose proof (proj1 (Forall_forall _ _) Hnew _ Hin) as Hnone.
      simpl in Hnone. by rewrite lookup_insert_eq in Hnone.
    + constructor; [done|]. eapply Forall_impl; [exact Hnew|].
      intros q' Hq'. simpl in Hq'.
      destruct (h !! q') eqn:E; [|done].
      by rewrite (lookup_weaken _ _ _ _ E Hsub0) in Hq'.
    + by etrans.
    + intros [|i] p' q'; simpl.
      * intros [= <-] [= <-]. rewrite Hx. simpl.
        eapply lookup_weaken; [|exact Hsub]. apply lookup_insert_eq.
      * intros Hp' Hq'. rewrite (Hat _ _ _ Hp' Hq').
        f_equal. apply gene_at_fresh.
        exact (proj1 (Forall_lookup _ _) Hall _ _ Hp').
Qed.

Lemma Dup_body_step g d G i p w :
  genome_heap w !! g = Some G ->
  Genes G !! i = Some p ->
  Dup_body g d (Z.of_nat i) tt w = dup_step d i p tt w.
Proof.
  intros Hg Hp. unfold Dup_body, dup_step.
  rewrite (bind_Ok _ _ _ _ _ (load_Ok _ _ _ Hg)).
  by rewrite (bind_Ok _ _ _ _ _ (index_Ok _ _ _ _ Hp)).
Qed.

Lemma dup_step_keeps_source g d G i p w w' :
  d <> g ->
  genome_heap w !! g = Some G ->
  dup_step d i p tt w = Ok tt w' ->
  genome_heap w' !! g = Some G.
Proof.
  intros Hne Hg. unfold dup_step.
  intros (q & w1 & Hdup & Hrest)%bind_Ok_inv.
  apply bind_Ok_inv in Hrest as (D & ? & [-> Hd]%load_Ok_inv & Hrest).
  apply bind_Ok_inv in Hrest as (gs & w2 & Hassign & ->%store_Ok_inv).
  assert (w2 = w1) as ->.
  { unfold assign_index in Hassign. case_bool_decide; [|done].
    by injection Hassign. }
  assert (genome_heap w1 = genome_heap w) as Hframe.
  { unfold gene_dup in Hdup. destruct p as [l|]; [|done].
    destruct (gene_heap w !! l); [|done]. by injection Hdup as _ <-. }
  simpl. rewrite lookup_insert_ne by done. by rewrite Hframe.
Qed.

(** What [Dup] does on a genome. *)
Lemma Dup_copies g G w :
  genome_heap w !! g = Some G ->
  genes_allocated (gene_heap w) (Genes G) ->
  Dup (Some g) w
  = Ok (Some (fresh (dom (genome_heap w))))
      (set_genome_heap
         (<[fresh (dom (genome_heap w)) :=
              {| Genes := Some <$> (dup_genes (Genes G) (gene_heap w)).1;
                 LinkFunc := LinkFunc G; Score := Score G;
                 SymbolMap := None |}]> (genome_heap w))
         (set_gene_heap (dup_genes (Genes G) (gene_heap w)).2 w)).
Proof.
  intros Hg Hall. set (d := fresh (dom (genome_heap w))).
  assert (d <> g) as Hne.
  { intros Heq. apply (is_fresh (dom (genome_heap w))).
    apply elem_of_dom. fold d. rewrite Heq. eauto. }
  set (D := {| Genes := replicate (length (Genes G)) None;
               LinkFunc := LinkFunc G; Score := Score G; SymbolMap := None |}).
  set (w0 := set_genome_heap (<[d := D]> (genome_heap w)) w).
  assert (genome_heap w0 !! g = Some G) as Hg0.
  { unfold w0. simpl. by rewrite lookup_insert_ne. }
  assert (genome_heap w0 !! d = Some D) as Hd0 by apply lookup_insert_eq.
  unfold Dup. rewrite (bind_Ok _ _ _ _ _ (load_Ok _ _ _ Hg)).
  unfold bind at 1. unfold new_genome at 1. fold d. fold D. fold w0.
  rewrite (bind_Ok _ _ _ _ _ (load_Ok _ _ _ Hg0)).
  erewrite (bind_Ok (for_range _ _ _ _)).
  2: { transitivity (for_each_at (dup_step d) 0 (drop 0 (Genes G)) tt w0).
       - apply (for_range_for_each_at
                  (fun w => genome_heap w !! g = Some G) (Genes G) _
                  (dup_step d)) with (a := 0%nat); [| |done].
         + intros i p [] w1 Hw1 Hp. by apply (Dup_body_step g d G).
         + intros i p [] w1 [] w2 Hw1 _ Hstep.
           by eapply dup_step_keeps_source.
       - rewrite drop_0.
         apply (dup_loop d (Genes G) [] w0 D Hd0); [done|done]. }
  unfold ret. f_equal. unfold w0, set_genome_heap, set_gene_heap. simpl.
  by rewrite insert_insert_eq.
Qed.

Lemma Mutate_body_frame d D i w0 w1 w2 :
  genome_heap w0 !! d = Some D ->
  differ_only_at_genes (Genes D) w0 w1 ->
  Mutate_body d i tt w1 = Ok tt w2 ->
  differ_only_at_genes (Genes D) w0 w2.
Proof.
  intros Hd (Hgh & Htr & Hgenes). unfold Mutate_body.
  intros (G1 & ? & [-> Hd1]%load_Ok_inv & Hrest)%bind_Ok_inv.
  rewrite Hgh, Hd in Hd1. injection Hd1 as <-.
  apply bind_Ok_inv in Hrest as (n & wr & Hrand & Hrest).
  assert (genome_heap wr = genome_heap w1 /\ trace wr = trace w1 /\
          gene_heap wr = gene_heap w1) as (Hgh_r & Htr_r & Hh_r).
  { unfold rand_Intn in Hrand. case_bool_decide; [|done].
    destruct (Intn _ _). by injection Hrand as _ <-. }
  apply bind_Ok_inv in Hrest as (G2 & ? & [-> Hd2]%load_Ok_inv & Hrest).
  rewrite Hgh_r, Hgh, Hd in Hd2. injection Hd2 as <-.
  apply bind_Ok_inv in Hrest as (p & ? & [-> Hp]%index_Ok_inv & Hmut).
  unfold gene_mutate in Hmut. destruct p as [l|]; [|done].
  destruct (gene_heap wr !! l) as [x|]; [|done].
  destruct (gene_Mutate x (rand wr)) as [x' r']. injection Hmut as <-.
  split; [|split]; simpl.
  - by rewrite Hgh_r.
  - by rewrite Htr_r.
  - intros l' Hl'. rewrite lookup_insert_ne by (by intros ->).
    rewrite Hh_r. by apply Hgenes.
Qed.

(** A mutation of a genome changes no genome, and no gene but those of
    its own slice. *)
Lemma Mutate_frame k d D w w' :
  genome_heap w !! d = Some D ->
  Mutate k d w = Ok tt w' ->
  differ_only_at_genes (Genes D) w w'.
Proof.
  intros Hd Hrun. unfold Mutate, for_range in Hrun.
  eapply (for_loop_invariant (differ_only_at_genes (Genes D) w));
    [| |exact Hrun].
  - intros i [] w1 [] w2. by apply Mutate_body_frame.
  - by split.
Qed.

(** Reading the copies is reading the duplicates of the sources. *)
Lemma dup_genes_read {B} (f : Gene -> B) (dflt : B) ps h :
  genes_allocated h ps ->
  (fun p => from_option f dflt (gene_at (dup_genes ps h).2 p))
    <$> (Some <$> (dup_genes ps h).1)
  = (fun p => from_option (fun x => f (gene_Dup x)) dflt (gene_at h p)) <$> ps.
Proof.
  intros Hall.
  destruct (dup_genes_spec ps h Hall) as (Hlen & _ & _ & _ & Hat).
  apply list_eq. intros i. rewrite !list_lookup_fmap.
  destruct ((dup_genes ps h).1 !! i) as [q|] eqn:Hq,
           (ps !! i) as [p|] eqn:Hp; simpl.
  - rewrite (Hat _ _ _ Hp Hq). by destruct (gene_at h p).
  - apply lookup_lt_Some in Hq. apply lookup_ge_None in Hp. lia.
  - apply lookup_ge_None in Hq. apply lookup_lt_Some in Hp. lia.
  - done.
Qed.

Lemma dup_genes_allocated ps h :
  genes_allocated h ps ->
  genes_allocated (dup_genes ps h).2 (Some <$> (dup_genes ps h).1).
Proof.
  intros Hall.
  destruct (dup_genes_spec ps h Hall) as (Hlen & _ & _ & _ & Hat).
  apply Forall_lookup. intros i p. rewrite list_lookup_fmap.
  destruct ((dup_genes ps h).1 !! i) as [q|] eqn:Hq; [|done].
  intros [= <-]. simpl.
  destruct (lookup_lt_is_Some_2 ps i) as [p Hp].
  { apply lookup_lt_Some in Hq. lia. }
  rewrite (Hat _ _ _ Hp Hq).
  destruct (proj1 (Forall_lookup _ _) Hall _ _ Hp) as [x ->]. by eexists.
Qed.

(** Nothing of the source is at a pointer of the copies. *)
Lemma dup_genes_source_kept ps h h'' :
  genes_allocated h ps ->
  (forall l, Some l ∉ Some <$> (dup_genes ps h).1 ->
             h'' !! l = (dup_genes ps h).2 !! l) ->
  Forall (fun p => gene_at h'' p = gene_at h p) ps.
Proof.
  intros Hall Hsame.
  destruct (dup_genes_spec ps h Hall) as (_ & _ & Hnew & Hsub & _).
  eapply Forall_impl; [exact Hall|]. intros [l|] [x Hx]; [simpl in *|done].
  rewrite Hsame.
  - rewrite Hx. by eapply lookup_weaken.
  - intros [q [[= <-] Hin]]%list_elem_of_fmap.
    pose proof (proj1 (Forall_forall _ _) Hnew _ Hin) as Hnone.
    simpl in Hnone. congruence.
Qed.

(** C6: [Dup] of a genome returns a new genome with the same linking
    function and score, whose gene slice is new and holds, in order, a
    copy made by the gene's own [Dup] of every gene of the source, at
    pointers that were not in use; the source and its genes are left as
    they were.  When a copy of a gene renders as the gene does, the
    duplicate renders as the source; a mutation of the duplicate touches
    only the genes of the duplicate, and whatever happens to those genes
    the source and its rendering stay what they were; a duplication of
    a genome logs nothing.  [Dup] of nil logs a diagnostic and returns
    nil: the trace is the trace before with the one log line at its end,
    and the rest of the world is as it was. *)
Theorem Dup_deep_copy w :
  (Dup None w
   = Ok None (emit (EvLog "denome.Dup error: src and dst must be non-nil") w) /\
   only_logs (Dup None w) w "denome.Dup error: src and dst must be non-nil"
     None) /\
  (forall g G,
      genome_heap w !! g = Some G ->
      genes_allocated (gene_heap w) (Genes G) ->
      exists d qs w',
        Dup (Some g) w = Ok (Some d) w' /\
        genome_heap w !! d = None /\
        genome_heap w'
        = <[d := {| Genes := Some <$> qs; LinkFunc := LinkFunc G;
                    Score := Score G; SymbolMap := None |}]> (genome_heap w) /\
        length qs = length (Genes G) /\
        NoDup qs /\
        Forall (fun q => gene_heap w !! q = None) qs /\
        gene_heap w ⊆ gene_heap w' /\
        (forall i p q,
            Genes G !! i = Some p -> qs !! i = Some q ->
            gene_heap w' !! q = gene_Dup <$> gene_at (gene_heap w) p) /\
        (dup_keeps_String ->
         result_of (String_of d w') = result_of (String_of g w)) /\
        (forall k w'',
            Mutate k d w' = Ok tt w'' ->
            differ_only_at_genes (Some <$> qs) w' w'') /\
        (forall w'',
            differ_only_at_genes (Some <$> qs) w' w'' ->
            genome_heap w'' !! g = Some G /\
            Forall (fun p => gene_at (gene_heap w'') p
                             = gene_at (gene_heap w) p) (Genes G) /\
            result_of (String_of g w'') = result_of (String_of g w)) /\
        trace w' = trace w).
Proof.
  split; [split; [reflexivity|by repeat split]|]. intros g G Hg Hall.
  pose proof (Dup_copies g G w Hg Hall) as Hrun.
  destruct (dup_genes_spec _ _ Hall) as (Hlen & Hnodup & Hnew & Hsub & Hat).
  set (d := fresh (dom (genome_heap w))) in *.
  set (qs := (dup_genes (Genes G) (gene_heap w)).1) in *.
  set (h' := (dup_genes (Genes G) (gene_heap w)).2) in *.
  set (D := {| Genes := Some <$> qs; LinkFunc := LinkFunc G;
               Score := Score G; SymbolMap := None |}) in *.
  set (w' := set_genome_heap _ _) in Hrun.
  assert (genome_heap w !! d = None) as Hd.
  { apply not_elem_of_dom. apply is_fresh. }
  assert (d <> g) as Hne by congruence.
  assert (genome_heap w' !! d = Some D) as Hd' by apply lookup_insert_eq.
  exists d, qs, w'. split; [done|]. split; [done|]. split; [done|].
  split; [done|]. split; [done|]. split; [done|]. split; [done|].
  split; [done|]. split; [|split; [|split; [|done]]].
  - intros Hstring.
    rewrite (String_of_renders d D w' Hd' (dup_genes_allocated _ _ Hall)).
    rewrite (String_of_renders g G w Hg Hall). simpl. do 2 f_equal.
    unfold gene_Strings.
    rewrite (dup_genes_read gene_String EmptyString _ _ Hall).
    apply Forall_fmap_ext_1, Forall_forall. intros p _.
    destruct (gene_at (gene_heap w) p); simpl; [apply Hstring|done].
  - intros k w'' Hmut. exact (Mutate_frame k d D w' w'' Hd' Hmut).
  - intros w'' (Hgh & _ & Hgenes).
    pose proof (dup_genes_source_kept _ _ _ Hall Hgenes) as Hkept.
    assert (genome_heap w'' !! g = Some G) as Hg''.
    { rewrite Hgh. unfold w'. simpl. by rewrite lookup_insert_ne. }
    split; [done|]. split; [done|].
    rewrite (String_of_renders g G w Hg Hall).
    rewrite (String_of_renders g G w'' Hg'').
    + simpl. do 2 f_equal. unfold gene_Strings.
      apply Forall_fmap_ext_1. eapply Forall_impl; [exact Hkept|].
      by intros p ->.
    + unfold genes_allocated in *.
      rewrite Forall_forall in Hkept. rewrite Forall_forall in Hall.
      apply Forall_forall. intros p Hp. rewrite (Hkept p Hp). by apply Hall.
Qed.

(** C10: [Dup] never copies the memoized map.  Whatever the map of the
    source is, the map of the duplicate is nil, and the first
    [SymbolCount] on the duplicate computes the count afresh, from the
    copies of the genes. *)
Theorem Dup_drops_SymbolMap g G w :
  genome_heap w !! g = Some G ->
  genes_allocated (gene_heap w) (Genes G) ->
  exists d w',
    Dup (Some g) w = Ok (Some d) w' /\
    SymbolMap <$> genome_heap w' !! d = Some None /\
    SymbolMap <$> genome_heap w' !! g = Some (SymbolMap G) /\
    forall sym,
    exists v w'',
      SymbolCount sym d w' = Ok v w'' /\
      v = GoInt.wrap
            (link_count G sym
             + sumZ ((fun p => from_option
                                 (fun x => gene_usage sym (gene_Dup x)) 0
                                 (gene_at (gene_heap w) p)) <$> Genes G)) /\
      is_Some (genome_heap w'' !! d ≫= SymbolMap).
Proof.
  intros Hg Hall.
  pose proof (Dup_copies g G w Hg Hall) as Hrun.
  destruct (dup_genes_spec _ _ Hall) as (Hlen & Hnodup & _).
  set (d := fresh (dom (genome_heap w))) in *.
  set (qs := (dup_genes (Genes G) (gene_heap w)).1) in *.
  set (h' := (dup_genes (Genes G) (gene_heap w)).2) in *.
  set (D := {| Genes := Some <$> qs; LinkFunc := LinkFunc G;
               Score := Score G; SymbolMap := None |}) in *.
  set (w' := set_genome_heap _ _) in Hrun.
  assert (genome_heap w !! d = None) as Hd.
  { apply not_elem_of_dom. apply is_fresh. }
  assert (d <> g) as Hne by congruence.
  assert (genome_heap w' !! d = Some D) as Hd' by apply lookup_insert_eq.
  exists d, w'. split; [done|]. split; [by rewrite Hd'|]. split.
  { unfold w'. simpl. rewrite lookup_insert_ne by done. by rewrite Hg. }
  intros sym.
  destruct (SymbolCount_computes sym d D w') as (m' & h'' & Hcount & _ & Hm').
  - right. simpl. apply (NoDup_fmap_2 Some). exact Hnodup.
  - done.
  - done.
  - apply (dup_genes_allocated _ _ Hall).
  - eexists _, _. split; [exact Hcount|]. split.
    + rewrite Hm'. f_equal. f_equal.
      * unfold link_count, len. simpl. by rewrite length_fmap, Hlen.
      * f_equal. unfold gene_usages.
        apply (dup_genes_read (gene_usage sym) 0 _ _ Hall).
    + simpl. rewrite lookup_insert_eq. simpl. by eexists.
Qed.

End Facts.

(** ** More about the operations *)

Section Further.

Context {Gene : Type} `{GeneOps Gene}.

(** The numeric registry [mn.Math]. *)
Variable Math : FuncMap.

Implicit Types (w : @World Gene) (g : loc) (G : Genome).
Implicit Types (h : gmap loc Gene) (ps : list (option loc)).

(** X1: [New] never fails and validates nothing: whatever the genes
    (none at all included) and the linking function, it returns a pointer
    that was not in use, to a genome with these genes and this linking
    function, the score 0 and no symbol map; every genome that was there
    is left as it was; the new genome renders as the genes it was given. *)
Theorem New_makes_a_fresh_genome genes linkFunc w :
  exists d w',
    New genes linkFunc w = Ok d w' /\
    genome_heap w !! d = None /\
    genome_heap w' !! d
    = Some {| Genes := genes; LinkFunc := linkFunc; Score := 0%float;
              SymbolMap := None |} /\
    (forall g, g <> d -> genome_heap w' !! g = genome_heap w !! g) /\
    gene_heap w' = gene_heap w /\
    trace w' = trace w /\
    (genes_allocated (gene_heap w) genes ->
     String_of d w'
     = Ok (String.concat ("|" +:+ linkFunc +:+ "|")
             (gene_Strings (gene_heap w) genes)) w').
Proof.
  eexists _, _. split; [reflexivity|]. simpl.
  split; [apply not_elem_of_dom, is_fresh|].
  split; [apply lookup_insert_eq|].
  split; [by intros g Hg; rewrite lookup_insert_ne|].
  split; [done|]. split; [done|]. intros Hall.
  exact (String_of_renders _
           {| Genes := genes; LinkFunc := linkFunc; Score := 0%float;
              SymbolMap := None |}
           (set_genome_heap _ w) (lookup_insert_eq _ _ _) Hall).
Qed.

(** X3: [merge] into a map adds, key by key, the count of [src] to the
    count of [dst] (a key that [dst] lacks counts for zero there), keeps
    the entries of the keys that [src] lacks, and changes nothing else;
    [merge] into a nil map returns when [src] is empty or nil and panics
    otherwise. *)
Theorem merge_adds_counts src w :
  (forall d,
      exists m',
        merge (Some d) src w = Ok (Some m') w /\
        forall k,
          m' !! k
          = match default ∅ src !! k with
            | Some v => Some (GoInt.add (map_get d k) v)
            | None => d !! k
            end) /\
  (default ∅ src = ∅ -> merge None src w = Ok None w) /\
  (default ∅ src <> ∅ ->
   merge None src w = Abort (Panic "assignment to entry in nil map") w).
Proof.
  split; [|split].
  - intros d. eexists. split; [reflexivity|]. apply merge_maps_lookup.
  - intros Hempty. unfold merge. by rewrite decide_True.
  - intros Hsome. unfold merge. by rewrite decide_False.
Qed.

(** X4: a genome without genes cannot be evaluated when its linking
    function resolves: [EvalBool] and [EvalMath] panic on gene 0, and
    leave the world as it was. *)
Theorem Eval_of_no_gene_panics g G w :
  genome_heap w !! g = Some G ->
  Genes G = [] ->
  (forall inp fm lf,
      fm !! LinkFunc G = Some lf ->
      EvalBool inp fm g w = Abort (Panic "index out of range") w) /\
  (forall inp lf,
      Math !! LinkFunc G = Some lf ->
      EvalMath Math inp g w = Abort (Panic "index out of range") w).
Proof.
  intros Hg Hnone. split.
  - intros inp fm lf Hlf. unfold EvalBool.
    rewrite (bind_Ok _ _ _ _ _ (load_Ok _ _ _ Hg)), Hlf.
    by rewrite (bind_Ok _ _ _ _ _ (load_Ok _ _ _ Hg)), Hnone.
  - intros inp lf Hlf. unfold EvalMath.
    rewrite (bind_Ok _ _ _ _ _ (load_Ok _ _ _ Hg)), Hlf.
    by rewrite (bind_Ok _ _ _ _ _ (load_Ok _ _ _ Hg)), Hnone.
Qed.

(** X5: on a genome of one gene whose linking function resolves,
    [EvalBool] and [EvalMath] return what the gene evaluates to: the
    linking function is looked up but never applied. *)
Theorem Eval_of_one_gene g G l x w :
  genome_heap w !! g = Some G ->
  Genes G = [Some l] ->
  gene_heap w !! l = Some x ->
  (forall inp fm lf,
      fm !! LinkFunc G = Some lf ->
      EvalBool inp fm g w
      = Ok (gene_EvalBool inp fm x).1
          (set_gene_heap (<[l := (gene_EvalBool inp fm x).2]> (gene_heap w))
             w)) /\
  (forall inp lf,
      Math !! LinkFunc G = Some lf ->
      EvalMath Math inp g w
      = Ok (gene_EvalMath inp x).1
          (set_gene_heap (<[l := (gene_EvalMath inp x).2]> (gene_heap w)) w)).
Proof.
  intros Hg Hone Hx. split.
  - intros inp fm lf Hlf. unfold EvalBool.
    rewrite (bind_Ok _ _ _ _ _ (load_Ok _ _ _ Hg)), Hlf.
    rewrite (bind_Ok _ _ _ _ _ (load_Ok _ _ _ Hg)), Hone.
    rewrite (bind_Ok _ _ _ _ _ (index_head _ _ _)).
    rewrite (bind_Ok _ _ _ _ _ (gene_call_Ok _ _ _ _ Hx)).
    rewrite (bind_Ok _ _ _ _ _ (load_Ok (set_gene_heap _ w) g G Hg)), Hone.
    by apply for_range_empty.
  - intros inp lf Hlf. unfold EvalMath.
    rewrite (bind_Ok _ _ _ _ _ (load_Ok _ _ _ Hg)), Hlf.
    rewrite (bind_Ok _ _ _ _ _ (load_Ok _ _ _ Hg)), Hone.
    rewrite (bind_Ok _ _ _ _ _ (index_head _ _ _)).
    rewrite (bind_Ok _ _ _ _ _ (gene_call_Ok _ _ _ _ Hx)).
    rewrite (bind_Ok _ _ _ _ _ (load_Ok (set_gene_heap _ w) g G Hg)), Hone.
    by apply for_range_empty.
Qed.

(** X6: a mutation of a genome without genes panics in its first round,
    in [rand.Intn(0)], before anything has changed. *)
Theorem Mutate_without_genes_panics k g G w :
  genome_heap w !! g = Some G ->
  Genes G = [] ->
  1 <= k ->
  Mutate k g w = Abort (Panic "invalid argument to Intn") w.
Proof.
  intros Hg Hnone Hk. unfold Mutate, for_range.
  destruct (Z.to_nat (k - 0)) as [|fuel] eqn:Hfuel; [lia|].
  simpl. rewrite bool_decide_true by lia.
  unfold Mutate_body.
  rewrite (bind_Abort _ _ w (Panic "invalid argument to Intn") w); [done|].
  by rewrite (bind_Ok _ _ _ _ _ (load_Ok _ _ _ Hg)), Hnone.
Qed.

(** X8: when the scoring function does not return, [Evaluate] stops as
    the scoring function did, in the world it left: the score is not
    written and nothing is sent. *)
Theorem Evaluate_stops_with_the_scoring (sf : ScoringFunc) c g w e w1 :
  sf g w = Abort e w1 ->
  Evaluate (Some sf) c g w = Abort e w1.
Proof.
  intros Hsf. unfold Evaluate. unfold bind at 1. simpl.
  by apply bind_Abort.
Qed.

(** X9: a genome without genes renders as the empty string, and a
    genome of one gene as that gene alone: the linking function shows
    only between two genes. *)
Theorem String_of_few_genes G w :
  (Genes G = [] -> String G w = Ok EmptyString w) /\
  (forall l x,
      Genes G = [Some l] -> gene_heap w !! l = Some x ->
      String G w = Ok (gene_String x) w).
Proof.
  split.
  - intros Hnone. unfold String. by rewrite Hnone.
  - intros l x Hone Hx. rewrite String_renders.
    + rewrite Hone. simpl. by rewrite Hx.
    + rewrite Hone. repeat constructor. simpl. eauto.
Qed.

Lemma Mutate_body_keeps_dom d i w1 w2 :
  Mutate_body d i tt w1 = Ok tt w2 ->
  dom (gene_heap w2) = dom (gene_heap w1) /\ trace w2 = trace w1.
Proof.
  unfold Mutate_body.
  intros (G1 & ? & [-> _]%load_Ok_inv & Hrest)%bind_Ok_inv.
  apply bind_Ok_inv in Hrest as (n & wr & Hrand & Hrest).
  assert (gene_heap wr = gene_heap w1 /\ trace wr = trace w1) as [Hh Ht].
  { unfold rand_Intn in Hrand. case_bool_decide; [|done].
    destruct (Intn _ _). by injection Hrand as _ <-. }
  apply bind_Ok_inv in Hrest as (G2 & ? & [-> _]%load_Ok_inv & Hrest).
  apply bind_Ok_inv in Hrest as (p & ? & [-> _]%index_Ok_inv & Hmut).
  unfold gene_mutate in Hmut. destruct p as [l|]; [|done].
  destruct (gene_heap wr !! l) as [x|] eqn:Hl; [|done].
  destruct (gene_Mutate x (rand wr)) as [x' r']. injection Hmut as <-.
  simpl. split; [|done]. rewrite <- Hh. apply dom_insert_lookup_L. eauto.
Qed.

(** X7: a mutation that returns has changed nothing but the random
    source and the genes its own slice points to: every genome is as it
    was (the slice, the linking function, the score and the memoized map
    of the mutated genome included), nothing is logged or sent, no gene
    is allocated, and a gene that the slice does not point to is as it
    was. *)
Theorem Mutate_touches_only_its_genes k g G w w' :
  genome_heap w !! g = Some G ->
  Mutate k g w = Ok tt w' ->
  genome_heap w' = genome_heap w /\
  trace w' = trace w /\
  dom (gene_heap w') = dom (gene_heap w) /\
  (forall l, Some l ∉ Genes G -> gene_heap w' !! l = gene_heap w !! l).
Proof.
  intros Hg Hrun.
  destruct (Mutate_frame k g G w w' Hg Hrun) as (Hgh & Htr & Hgenes).
  split; [done|]. split; [done|]. split; [|done].
  unfold Mutate, for_range in Hrun.
  eapply (for_loop_invariant
            (fun w1 => dom (gene_heap w1) = dom (gene_heap w)));
    [| |exact Hrun]; [|done].
  intros i [] w1 [] w2 Hw1 Hbody.
  destruct (Mutate_body_keeps_dom g i w1 w2 Hbody) as [Hdom _]. congruence.
Qed.

(** X10: a duplication logs nothing, sends nothing and draws nothing
    from the random source; the duplicate it returns is a genome whose
    gene pointers all lead to genes, as those of the source still do, so
    that the operations that need this of a genome can follow on either
    of the two. *)
Theorem Dup_leaves_two_sound_genomes g G w :
  genome_heap w !! g = Some G ->
  genes_allocated (gene_heap w) (Genes G) ->
  exists d D w',
    Dup (Some g) w = Ok (Some d) w' /\
    d <> g /\
    genome_heap w' !! d = Some D /\
    genome_heap w' !! g = Some G /\
    len (Genes D) = len (Genes G) /\
    genes_allocated (gene_heap w') (Genes D) /\
    genes_allocated (gene_heap w') (Genes G) /\
    trace w' = trace w /\
    rand w' = rand w.
Proof.
  intros Hg Hall.
  pose proof (Dup_copies g G w Hg Hall) as Hrun.
  destruct (dup_genes_spec _ _ Hall) as (Hlen & _ & _ & Hsub & _).
  assert (fresh (dom (genome_heap w)) <> g) as Hne.
  { intros Heq. apply (is_fresh (dom (genome_heap w))).
    rewrite Heq. apply elem_of_dom. eauto. }
  eexists _, _, _. split; [exact Hrun|]. simpl.
  split; [done|]. split; [apply lookup_insert_eq|].
  split; [by rewrite lookup_insert_ne|]. simpl.
  split; [unfold len; by rewrite length_fmap, Hlen|].
  split; [by apply dup_genes_allocated|]. split; [|done].
  eapply Forall_impl; [exact Hall|]. intros [l|] [x Hx]; [simpl in *|done].
  exists x. by eapply lookup_weaken.
Qed.

(** *** More about the symbol accounting *)

Lemma sumZ_Permutation l l' : l ≡ₚ l' -> sumZ l = sumZ l'.
Proof.
  induction 1 as [|z l l' _ IH|y z l|l1 l2 l3 _ IH1 _ IH2];
    rewrite ?sumZ_cons; [done|by rewrite IH|lia|congruence].
Qed.

(** X11: the count of the first [SymbolCount] does not depend on the
    order of the genes: two genomes with the same linking function whose
    gene slices are permutations of each other get the same count,
    given the symbol-accounting contract of the genes. *)
Theorem SymbolCount_is_blind_to_gene_order sym g1 g2 G1 G2 w :
  accounting_stable sym ->
  genome_heap w !! g1 = Some G1 ->
  genome_heap w !! g2 = Some G2 ->
  SymbolMap G1 = None ->
  SymbolMap G2 = None ->
  LinkFunc G1 = LinkFunc G2 ->
  Genes G1 ≡ₚ Genes G2 ->
  genes_allocated (gene_heap w) (Genes G1) ->
  exists v w1 w2,
    SymbolCount sym g1 w = Ok v w1 /\ SymbolCount sym g2 w = Ok v w2.
Proof.
  intros Hstable Hg1 Hg2 Hnil1 Hnil2 Hlf Hperm Hall1.
  assert (genes_allocated (gene_heap w) (Genes G2)) as Hall2.
  { unfold genes_allocated. by rewrite <- Hperm. }
  destruct (SymbolCount_computes sym g1 G1 w (or_introl Hstable) Hg1 Hnil1 Hall1)
    as (m1 & h1 & Hrun1 & _ & Hm1).
  destruct (SymbolCount_computes sym g2 G2 w (or_introl Hstable) Hg2 Hnil2 Hall2)
    as (m2 & h2 & Hrun2 & _ & Hm2).
  eexists _, _, _. split; [exact Hrun1|]. rewrite Hrun2. f_equal.
  rewrite Hm1, Hm2. f_equal. f_equal.
  - unfold link_count, len. by rewrite Hlf, (Permutation_length Hperm).
  - apply sumZ_Permutation. unfold gene_usages. by rewrite Hperm.
Qed.

(** X12: on a genome without genes, the first [SymbolCount] counts the
    linking function [-1] times and any other symbol 0 times. *)
Theorem SymbolCount_of_no_gene sym g G w :
  genome_heap w !! g = Some G ->
  SymbolMap G = None ->
  Genes G = [] ->
  exists w',
    SymbolCount sym g w
    = Ok (if decide (sym = LinkFunc G) then -1 else 0) w'.
Proof.
  intros Hg Hnil Hnone.
  assert (NoDup (Genes G)) as Hnodup by (rewrite Hnone; apply NoDup_nil_2).
  assert (genes_allocated (gene_heap w) (Genes G)) as Hall
      by (rewrite Hnone; constructor).
  destruct (SymbolCount_computes sym g G w (or_intror Hnodup) Hg Hnil Hall)
    as (m' & h' & Hrun & _ & Hm').
  eexists. rewrite Hrun. f_equal. rewrite Hm'.
  unfold link_count. rewrite Hnone. simpl. by case_decide.
Qed.

Lemma gene_call_Ok_inv {A} (op : Gene -> A * Gene) p a w w' :
  gene_call op p w = Ok a w' ->
  exists l x,
    p = Some l /\ gene_heap w !! l = Some x /\
    w' = set_gene_heap (<[l := (op x).2]> (gene_heap w)) w.
Proof.
  unfold gene_call. destruct p as [l|]; [|done].
  destruct (gene_heap w !! l) as [x|] eqn:Hx; [|done].
  destruct (op x) as [a' x'] eqn:Hop. intros [= _ <-].
  exists l, x. by rewrite Hop.
Qed.

Lemma SymbolCount_body_frame sym g G i w w1 w2 :
  counted_from g G w w1 ->
  SymbolCount_body g sym i tt w1 = Ok tt w2 ->
  counted_from g G w w2.
Proof.
  intros ([m Hgh] & Htr & Hrand & Hdom & Hgenes). unfold SymbolCount_body.
  assert (genome_heap w1 !! g = Some (with_SymbolMap (Some m) G)) as Hg1.
  { rewrite Hgh. apply lookup_insert_eq. }
  intros (G1 & ? & [-> HG1]%load_Ok_inv & H1)%bind_Ok_inv.
  rewrite Hg1 in HG1. injection HG1 as <-.
  apply bind_Ok_inv in H1 as (p & ? & [-> Hp]%index_Ok_inv & H2).
  apply bind_Ok_inv in H2 as (a & w3 & Hcall & H3).
  apply gene_call_Ok_inv in Hcall as (l & x & -> & Hx & ->).
  apply bind_Ok_inv in H3 as (G2 & ? & [-> _]%load_Ok_inv & H4).
  apply bind_Ok_inv in H4 as (p2 & ? & [-> _]%index_Ok_inv & H5).
  apply bind_Ok_inv in H5 as (src & ? & ->%gene_read_Ok_inv & H6).
  apply bind_Ok_inv in H6 as (G3 & ? & [-> HG3]%load_Ok_inv & H7).
  simpl in HG3. rewrite Hg1 in HG3. injection HG3 as <-.
  apply bind_Ok_inv in H7 as (dst & ? & [= <- <-] & ->%store_Ok_inv).
  split; [|split; [|split; [|split]]]; simpl.
  - eexists. rewrite Hgh. by rewrite insert_insert_eq.
  - done.
  - done.
  - rewrite <- Hdom. apply dom_insert_lookup_L. eauto.
  - intros l' Hl'. rewrite lookup_insert_ne by (by intros ->).
    by apply Hgenes.
Qed.

(** X13: a [SymbolCount] that returns has changed, of its genome, the
    memoized map at most, and has returned the entry of the symbol in
    the map it leaves; the gene slice, the linking function and the
    score are as they were, and so is every other genome; nothing is
    logged or sent, the random source is not drawn from, no gene is
    allocated, and a gene that the slice does not point to is as it
    was. *)
Theorem SymbolCount_changes_only_the_map sym g G w v w' :
  genome_heap w !! g = Some G ->
  SymbolCount sym g w = Ok v w' ->
  exists m,
    genome_heap w' = <[g := with_SymbolMap (Some m) G]> (genome_heap w) /\
    v = map_get m sym /\
    trace w' = trace w /\
    rand w' = rand w /\
    dom (gene_heap w') = dom (gene_heap w) /\
    (forall l, Some l ∉ Genes G -> gene_heap w' !! l = gene_heap w !! l).
Proof.
  intros Hg. unfold SymbolCount.
  intros (G0 & ? & [-> Hg0]%load_Ok_inv & Hrest)%bind_Ok_inv.
  rewrite Hg in Hg0. injection Hg0 as <-.
  apply bind_Ok_inv in Hrest as ([] & w2 & Hbranch & Hrest).
  apply bind_Ok_inv in Hrest as (G1 & ? & [-> Hg1]%load_Ok_inv & Hret).
  injection Hret as <- <-.
  assert (counted_from g G w w2) as ([m Hgh] & Htr & Hrand & Hdom & Hgenes).
  { destruct (SymbolMap G) as [m|] eqn:Hmap.
    - injection Hbranch as <-. repeat split; try done.
      exists m. rewrite insert_id; [done|]. rewrite Hg. f_equal.
      destruct G; simpl in *. by subst.
    - apply bind_Ok_inv in Hbranch as ([] & wA & HA%store_Ok_inv & Hbranch).
      apply bind_Ok_inv in Hbranch as (GA & ? & [-> HgA]%load_Ok_inv & Hbranch).
      rewrite HA in HgA. simpl in HgA. rewrite lookup_insert_eq in HgA.
      injection HgA as <-. simpl in Hbranch.
      apply bind_Ok_inv in Hbranch as (mB & ? & [= <- <-] & Hbranch).
      apply bind_Ok_inv in Hbranch as ([] & wB & HB%store_Ok_inv & Hbranch).
      apply bind_Ok_inv in Hbranch as (GB & ? & [-> HgB]%load_Ok_inv & Hloop).
      unfold for_range in Hloop.
      eapply (for_loop_invariant (counted_from g G w)); [| |exact Hloop].
      + intros i [] wi [] wi'. apply SymbolCount_body_frame.
      + subst wB wA. repeat split; try done.
        eexists. simpl. by rewrite insert_insert_eq. }
  rewrite Hgh, lookup_insert_eq in Hg1. injection Hg1 as <-.
  exists m. by repeat split.
Qed.

Lemma bind_bind {A B C} (m : M A) (k : A -> M B) (k' : B -> M C) w :
  bind (bind m k) k' w = bind m (fun a => bind (k a) k') w.
Proof. unfold bind. by destruct (m w). Qed.

(** The first [SymbolCount] of a genome is the loop over its genes, run
    in the world where the map of the genome counts the linking function
    only. *)
Lemma SymbolCount_as_loop sym g G w :
  genome_heap w !! g = Some G ->
  SymbolMap G = None ->
  SymbolCount sym g w
  = bind (for_each (account_step sym g) (Genes G) tt)
      (fun _ => bind (load g)
                  (fun G => ret (map_get_opt (SymbolMap G) sym)))
      (set_genome_heap
         (<[g := with_SymbolMap
                   (Some {[ LinkFunc G := GoInt.sub (len (Genes G)) 1 ]}) G]>
            (genome_heap w)) w).
Proof.
  intros Hg Hnil.
  set (m0 := {[ LinkFunc G := GoInt.sub (len (Genes G)) 1 ]} : gmap string Z).
  set (GA := with_SymbolMap (Some ∅) G).
  set (wA := set_genome_heap (<[g := GA]> (genome_heap w)) w).
  set (GB := with_SymbolMap (Some m0) G).
  set (wB := set_genome_heap (<[g := GB]> (genome_heap wA)) wA).
  assert (genome_heap wA !! g = Some GA) as HA by apply lookup_insert_eq.
  assert (genome_heap wB !! g = Some GB) as HB by apply lookup_insert_eq.
  assert (set_genome_heap (<[g := GB]> (genome_heap w)) w = wB) as ->.
  { unfold wB, wA, set_genome_heap. simpl. by rewrite insert_insert_eq. }
  unfold SymbolCount.
  rewrite (bind_Ok _ _ _ _ _ (load_Ok _ _ _ Hg)), Hnil.
  rewrite bind_bind, (bind_Ok _ _ _ _ _ (store_Ok w g G GA Hg)).
  rewrite bind_bind, (bind_Ok _ _ _ _ _ (load_Ok wA g GA HA)).
  rewrite bind_bind. unfold bind at 1. simpl map_assign. unfold ret at 1.
  rewrite bind_bind, (bind_Ok _ _ _ _ _ (store_Ok wA g GA _ HA)).
  rewrite bind_bind, (bind_Ok _ _ _ _ _ (load_Ok wB g GB HB)).
  change (Genes GB) with (Genes G).
  assert (for_range 0 (len (Genes G)) (SymbolCount_body g sym) tt wB
          = for_each (account_step sym g) (Genes G) tt wB) as Hloop;
    [|unfold bind; by rewrite Hloop].
  transitivity
    (for_each_at (fun _ => account_step sym g) 0 (drop 0 (Genes G)) tt wB).
  2: { rewrite drop_0. apply for_each_at_const. }
  apply (for_range_for_each_at
           (fun w => exists m, genome_heap w !! g
                               = Some (with_SymbolMap (Some m) G))
           (Genes G) _ (fun _ => account_step sym g))
    with (a := 0%nat).
  - intros i p [] w1 [m Hw1] Hp.
    by apply (SymbolCount_body_step sym g _ i p w1 Hw1).
  - intros i p [] w1 [] w2 [m Hw1] Hp Hstep.
    unfold account_step in Hstep.
    apply bind_Ok_inv in Hstep as (a & w3 & Hcall & Hstep).
    pose proof (gene_call_genome_heap (gene_SymbolCount sym) p w1)
      as Hframe. rewrite Hcall in Hframe. simpl in Hframe.
    apply bind_Ok_inv in Hstep as (src & ? & ->%gene_read_Ok_inv & Hstep).
    rewrite <- Hframe in Hw1.
    exact (merge_store_keeps_map g G m src w3 w2 Hw1 Hstep).
  - by exists m0.
Qed.

Lemma merge_maps_in_range (dst : gmap string Z) src :
  (forall k, GoInt.in_range (map_get dst k)) ->
  forall k, GoInt.in_range (map_get (merge_maps dst src) k).
Proof.
  intros Hdst k. unfold map_get at 1. rewrite merge_maps_lookup.
  destruct (default ∅ src !! k); [apply GoIntFacts.wrap_in_range|apply Hdst].
Qed.

Lemma forced_counts_fresh sym k h ps l x :
  Some l ∉ ps ->
  forced_counts sym k (<[l := x]> h) ps = forced_counts sym k h ps.
Proof.
  intros Hl. unfold forced_counts. apply Forall_fmap_ext_1, Forall_forall.
  intros [l'|] Hin; [simpl|done].
  rewrite lookup_insert_ne; [done|]. by intros ->.
Qed.

(** The loop of [SymbolCount] over distinct genes, key by key. *)
Lemma account_loop_keys sym g G ps :
  NoDup ps ->
  forall m w,
    genome_heap w !! g = Some (with_SymbolMap (Some m) G) ->
    genes_allocated (gene_heap w) ps ->
    (forall k, GoInt.in_range (map_get m k)) ->
    exists m' h',
      for_each (account_step sym g) ps tt w
      = Ok tt (set_genome_heap
                 (<[g := with_SymbolMap (Some m') G]> (genome_heap w))
                 (set_gene_heap h' w)) /\
      forall k,
        map_get m' k
        = GoInt.wrap (map_get m k + sumZ (forced_counts sym k (gene_heap w) ps)).
Proof.
  induction ps as [|p ps IH]; intros Hnodup m w Hg Hall Hrange.
  - exists m, (gene_heap w). split.
    + simpl. unfold ret. f_equal. destruct w; simpl in *.
      unfold set_genome_heap. simpl. f_equal. symmetry. by apply insert_id.
    + intros k. simpl. rewrite Z.add_0_r. symmetry.
      by apply GoIntFacts.wrap_id.
  - apply NoDup_cons in Hnodup as [Hhead Hnodup].
    apply Forall_cons in Hall as [[x Hx] Hall].
    destruct p as [l|]; [simpl in Hx|done].
    pose proof (account_step_Ok sym g G m l x w Hg Hx) as Hstep.
    set (m1 := merge_maps m (gene_SymbolMap (gene_forced sym x))) in *.
    set (w1 := set_genome_heap _ _) in Hstep.
    destruct (IH Hnodup m1 w1) as (m' & h' & Hrun & Hm').
    { subst w1. simpl. apply lookup_insert_eq. }
    { subst w1. simpl. apply genes_allocated_insert; eauto. }
    { by apply merge_maps_in_range. }
    exists m', h'. split.
    + simpl. rewrite (bind_Ok _ _ _ _ _ Hstep), Hrun. subst w1. simpl.
      unfold set_genome_heap, set_gene_heap. simpl.
      by rewrite insert_insert_eq.
    + intros k. rewrite Hm'. subst w1. simpl.
      rewrite (forced_counts_fresh _ _ _ _ _ _ Hhead), Hx. simpl.
      unfold m1. rewrite map_get_merge_maps by apply Hrange.
      unfold GoInt.add. rewrite GoIntFacts.wrap_add_l. f_equal. lia.
Qed.

(** X14: the genes are forced once, for the symbol of the first call.
    On a genome with distinct genes, a second [SymbolCount], for any
    symbol [s2], returns the count of the linking function plus the sum
    of the entries of [s2] in the maps that the genes held after being
    forced for the first symbol [s1], and changes nothing. *)
Theorem SymbolCount_answers_from_the_first_call s1 s2 g G w :
  genome_heap w !! g = Some G ->
  SymbolMap G = None ->
  NoDup (Genes G) ->
  genes_allocated (gene_heap w) (Genes G) ->
  exists v1 w1,
    SymbolCount s1 g w = Ok v1 w1 /\
    SymbolCount s2 g w1
    = Ok (GoInt.wrap
            (link_count G s2
             + sumZ (forced_counts s1 s2 (gene_heap w) (Genes G))))
        w1.
Proof.
  intros Hg Hnil Hnodup Hall.
  set (m0 := {[ LinkFunc G := GoInt.sub (len (Genes G)) 1 ]} : gmap string Z).
  set (w0 := set_genome_heap
               (<[g := with_SymbolMap (Some m0) G]> (genome_heap w)) w).
  assert (forall k, map_get m0 k = GoInt.wrap (link_count G k)) as Hm0.
  { intros k. unfold map_get, link_count, m0. case_decide as Hk.
    - subst k. by rewrite lookup_singleton_eq.
    - by rewrite lookup_singleton_ne. }
  destruct (account_loop_keys s1 g G (Genes G) Hnodup m0 w0)
    as (m' & h' & Hrun & Hm').
  { apply lookup_insert_eq. }
  { done. }
  { intros k. rewrite Hm0. apply GoIntFacts.wrap_in_range. }
  set (w1 := set_genome_heap _ _) in Hrun.
  assert (genome_heap w1 !! g = Some (with_SymbolMap (Some m') G)) as Hg1
      by apply lookup_insert_eq.
  exists (map_get m' s1), w1. split.
  - rewrite (SymbolCount_as_loop s1 g G w Hg Hnil). fold m0. fold w0.
    rewrite (bind_Ok _ _ _ _ _ Hrun).
    by rewrite (bind_Ok _ _ _ _ _ (load_Ok _ _ _ Hg1)).
  - unfold SymbolCount.
    rewrite (bind_Ok _ _ _ _ _ (load_Ok _ _ _ Hg1)). simpl.
    unfold bind at 1. unfold ret at 1.
    rewrite (bind_Ok _ _ _ _ _ (load_Ok _ _ _ Hg1)).
    unfold ret, map_get_opt. simpl. f_equal.
    rewrite Hm', Hm0. subst w0. simpl. by rewrite GoIntFacts.wrap_add_l.
Qed.

End Further.

(** ** The model at work *)

Section Examples.

Example int_add_wraps : GoInt.add GoInt.max_int 1 = GoInt.min_int.
Proof. reflexivity. Qed.

Example merge_adds :
  map_get (merge_maps {[ "a" := 1 ]} (Some {[ "a" := 2; "b" := 3 ]})) "a" = 3.
Proof. vm_compute. reflexivity. Qed.

Example EvalBool_links_with_OR :
  result_of (EvalBool [] RefGene.registry 1%positive
               (world_of_genes [Some 1%positive; Some 2%positive]))
  = inl true.
Proof. vm_compute. reflexivity. Qed.

Example EvalBool_of_no_gene_panics :
  result_of (EvalBool [] RefGene.registry 1%positive (world_of_genes []))
  = inr (Panic "index out of range").
Proof. vm_compute. reflexivity. Qed.

Example EvalBool_unresolved_before_any_gene :
  result_of (EvalBool [] ∅ 1%positive (world_of_genes [])) = inl false.
Proof. vm_compute. reflexivity. Qed.

Example SymbolCount_of_a_shared_gene :
  result_of (SymbolCount "a" 1%positive
               (world_of_genes [Some 1%positive; Some 2%positive;
                                Some 1%positive]))
  = inl 3.
Proof. vm_compute. reflexivity. Qed.

Example SymbolCount_of_the_link :
  result_of (SymbolCount "OR" 1%positive
               (world_of_genes [Some 1%positive; Some 2%positive]))
  = inl 1.
Proof. vm_compute. reflexivity. Qed.

Example Mutate_of_no_gene_panics :
  result_of (Mutate 1 1%positive (world_of_genes []))
  = inr (Panic "invalid argument to Intn").
Proof. vm_compute. reflexivity. Qed.

Example Mutate_of_no_gene_zero_times :
  result_of (Mutate 0 1%positive (world_of_genes [])) = inl tt.
Proof. vm_compute. reflexivity. Qed.

Example Dup_returns_a_new_pointer :
  result_of (Dup (Some 1%positive)
               (world_of_genes [Some 1%positive; Some 2%positive]))
  = inl (Some 2%positive).
Proof. vm_compute. reflexivity. Qed.

Example String_of_two_genes :
  result_of (String_of 1%positive
               (world_of_genes [Some 1%positive; Some 2%positive]))
  = inl "a.b|OR|T.a".
Proof. vm_compute. reflexivity. Qed.

Example Evaluate_without_scoring_exits :
  result_of (Evaluate None 7%positive 1%positive (world_of_genes []))
  = inr (Exit 1).
Proof. vm_compute. reflexivity. Qed.

Example Evaluate_into_the_nil_channel_blocks :
  result_of (Evaluate (Some score_750) 7%positive 1%positive
               (world_of_genes []))
  = inr Blocked.
Proof. vm_compute. reflexivity. Qed.

Example Evaluate_into_a_closed_channel_panics :
  result_of (Evaluate (Some score_750) 7%positive 1%positive
               (set_chans {[ 7%positive := {| chan_closed := true;
                                              chan_room := 0;
                                              chan_got := [] |} ]}
                  (RefGene.world2 "OR" None)))
  = inr (Panic "send on closed channel").
Proof. vm_compute. reflexivity. Qed.

Example Evaluate_twice_into_a_channel_with_room_for_one :
  result_of (Evaluate (Some score_750) 7%positive 1%positive
               (world_of (Evaluate (Some score_750) 7%positive 1%positive
                            (RefGene.world2 "OR" None))))
  = inr Blocked.
Proof. vm_compute. reflexivity. Qed.

End Examples.

(** ** The theorems at the reference gene *)

Section Witnesses.

Lemma world2_allocated lf m :
  genes_allocated (gene_heap (RefGene.world2 lf m)) [Some 1%positive; Some 2%positive].
Proof. repeat constructor; eexists; vm_compute; reflexivity. Qed.

Lemma Eval_folds_left_to_right_witness :
  (forall inp fm lf,
      fm !! "OR" = Some lf ->
      exists b0 bs h',
        gene_evals (gene_EvalBool inp fm) [Some 1%positive; Some 2%positive]
          (gene_heap (RefGene.world2 "OR" None))
        = Some (b0 :: bs, h') /\
        EvalBool inp fm 1%positive (RefGene.world2 "OR" None)
        = Ok (foldl (fun result b => BoolFunction lf result b false false)
                b0 bs)
             (set_gene_heap h' (RefGene.world2 "OR" None))) /\
  (forall inp lf,
      RefGene.registry !! "OR" = Some lf ->
      exists x0 xs h',
        gene_evals (gene_EvalMath inp) [Some 1%positive; Some 2%positive]
          (gene_heap (RefGene.world2 "OR" None))
        = Some (x0 :: xs, h') /\
        EvalMath RefGene.registry inp 1%positive (RefGene.world2 "OR" None)
        = Ok (foldl (fun result x =>
                       Float64Function lf result x 0%float 0%float) x0 xs)
             (set_gene_heap h' (RefGene.world2 "OR" None))).
Proof.
  apply (Eval_folds_left_to_right RefGene.registry (RefGene.world2 "OR" None) 1%positive
           {| Genes := [Some 1%positive; Some 2%positive];
              LinkFunc := "OR"; Score := 0%float; SymbolMap := None |}).
  - reflexivity.
  - vm_compute. discriminate.
  - apply world2_allocated.
Defined.

Lemma Eval_unresolved_link_witness :
  only_logs (EvalBool [] ∅ 1%positive (RefGene.world2 "XOR" None))
    (RefGene.world2 "XOR" None) "Unable to find linking function: XOR" false /\
  only_logs (EvalMath RefGene.registry [] 1%positive
               (RefGene.world2 "XOR" None))
    (RefGene.world2 "XOR" None) "Unable to find linking function: XOR"
    0%float.
Proof.
  destruct (Eval_unresolved_link RefGene.registry (RefGene.world2 "XOR" None)
              1%positive (RefGene.genome2 "XOR" None) eq_refl)
    as [Hbool Hmath].
  split.
  - apply (Hbool [] ∅). reflexivity.
  - apply (Hmath []). reflexivity.
Defined.

Lemma RefGene_accounting_stable sym : accounting_stable (Gene := RefGene.t) sym.
Proof. intros [ss [m|]]; reflexivity. Qed.

Lemma RefGene_eval_stable_bool inp fm :
  eval_stable (Gene := RefGene.t) (gene_EvalBool inp fm).
Proof. intros x. reflexivity. Qed.

Lemma RefGene_eval_stable_math inp :
  eval_stable (Gene := RefGene.t) (gene_EvalMath inp).
Proof. intros x. reflexivity. Qed.

Lemma RefGene_dup_keeps_String : dup_keeps_String (Gene := RefGene.t).
Proof. intros x. reflexivity. Qed.

Lemma SymbolCount_first_call_witness :
  exists v w',
    SymbolCount "OR" 1%positive (RefGene.world2 "OR" None) = Ok v w' /\
    v = 1.
Proof.
  destruct (SymbolCount_first_call "OR" 1%positive
              (RefGene.genome2 "OR" None) (RefGene.world2 "OR" None))
    as (v & w' & Hrun & _ & _ & Hlink).
  - apply RefGene_accounting_stable.
  - reflexivity.
  - reflexivity.
  - vm_compute. discriminate.
  - apply world2_allocated.
  - exists v, w'. split; [exact Hrun|]. apply Hlink.
    + reflexivity.
    + repeat constructor.
    + vm_compute. discriminate.
Defined.

Lemma SymbolCount_memoized_witness :
  SymbolCount "a" 1%positive world2_mutated
  = Ok 1 world2_mutated.
Proof.
  apply (SymbolCount_memoized "a" 1%positive (RefGene.world2 "OR" None) 1
           world2_counted).
  - vm_compute. reflexivity.
  - vm_compute. reflexivity.
Defined.

Lemma Evaluate_scores_and_sends_witness :
  let o := Evaluate (Some score_750) 7%positive 1%positive
             (RefGene.world2 "OR" None) in
  result_of o = inl tt /\
  Score <$> genome_heap (world_of o) !! 1%positive = Some 750%float /\
  trace (world_of o) = [EvSend 7%positive 1%positive] /\
  chan_got <$> chans (world_of o) !! 7%positive = Some [1%positive].
Proof.
  pose proof (proj2 (Evaluate_scores_and_sends 7%positive 1%positive
                       (RefGene.world2 "OR" None)) score_750 750%float
                (RefGene.world2 "OR" None) (RefGene.genome2 "OR" None)
                eq_refl eq_refl) as Hthm.
  cbv zeta in Hthm. destruct Hthm as ((Hscore & _) & Hopen & _).
  destruct (Hopen {| chan_closed := false; chan_room := 1; chan_got := [] |}
              0%nat eq_refl eq_refl eq_refl)
    as (Hres & Htrace & _ & Hsink & _).
  cbv zeta. split; [exact Hres|].
  split; [exact (f_equal (fmap Score) Hscore)|].
  split; [exact Htrace|]. exact (f_equal (fmap chan_got) Hsink).
Defined.

Lemma Mutate_issues_k_rounds_witness :
  Mutate 0 1%positive (RefGene.world2 "OR" None)
  = Ok tt (RefGene.world2 "OR" None) /\
  exists w',
    Mutate 3 1%positive (RefGene.world2 "OR" None) = Ok tt w' /\
    mutation_rounds (RefGene.genome2 "OR" None) 3 (RefGene.world2 "OR" None) w' /\
    genome_heap w' = genome_heap (RefGene.world2 "OR" None) /\
    dom (gene_heap w') = dom (gene_heap (RefGene.world2 "OR" None)).
Proof.
  split.
  - apply (proj1 (Mutate_issues_k_rounds 0 1%positive
                    (RefGene.world2 "OR" None))). lia.
  - apply (proj2 (Mutate_issues_k_rounds 3 1%positive
                    (RefGene.world2 "OR" None)) (RefGene.genome2 "OR" None)).
    + lia.
    + reflexivity.
    + vm_compute. discriminate.
    + apply world2_allocated.
Defined.

Lemma String_joins_genes_witness :
  String (RefGene.genome2 "OR" None) (RefGene.world2 "OR" None)
  = Ok "a.b|OR|c.d" (RefGene.world2 "OR" None).
Proof.
  apply (proj2 (String_joins_genes (RefGene.genome2 "OR" None)
                  (RefGene.world2 "OR" None) (world2_allocated "OR" None))
           1%positive 2%positive RefGene.gene_ab RefGene.gene_cd);
    reflexivity.
Defined.

Lemma Eval_twice_witness :
  result_of (EvalBool [true] RefGene.registry 1%positive
               (world_of (EvalBool [true] RefGene.registry 1%positive
                            (RefGene.world2 "OR" None))))
  = result_of (EvalBool [true] RefGene.registry 1%positive
                 (RefGene.world2 "OR" None)) /\
  result_of (EvalMath RefGene.registry [] 1%positive
               (world_of (EvalMath RefGene.registry [] 1%positive
                            (RefGene.world2 "OR" None))))
  = result_of (EvalMath RefGene.registry [] 1%positive
                 (RefGene.world2 "OR" None)).
Proof.
  destruct (Eval_twice RefGene.registry 1%positive (RefGene.world2 "OR" None))
    as [Hbool Hmath].
  split.
  - apply (Hbool [true] RefGene.registry), RefGene_eval_stable_bool.
  - apply (Hmath []), RefGene_eval_stable_math.
Defined.

Lemma Dup_deep_copy_witness :
  exists d (qs : list loc) w',
    Dup (Some 1%positive) (RefGene.world2 "OR" None) = Ok (Some d) w' /\
    length qs = 2%nat /\
    result_of (String_of d w')
    = result_of (String_of 1%positive (RefGene.world2 "OR" None)).
Proof.
  destruct (proj2 (Dup_deep_copy (RefGene.world2 "OR" None)) 1%positive
              (RefGene.genome2 "OR" None) eq_refl (world2_allocated "OR" None))
    as (d & qs & w' & Hrun & _ & _ & Hlen & _ & _ & _ & _ & Hstring & _).
  exists d, qs, w'. split; [exact Hrun|]. split; [exact Hlen|].
  apply Hstring, RefGene_dup_keeps_String.
Defined.

Lemma Dup_drops_SymbolMap_witness :
  exists d w',
    Dup (Some 1%positive) (RefGene.world2 "OR" (Some {[ "a" := 5 ]}))
    = Ok (Some d) w' /\
    SymbolMap <$> genome_heap w' !! d = Some None.
Proof.
  destruct (Dup_drops_SymbolMap 1%positive
              (RefGene.genome2 "OR" (Some {[ "a" := 5 ]}))
              (RefGene.world2 "OR" (Some {[ "a" := 5 ]})) eq_refl
              (world2_allocated "OR" (Some {[ "a" := 5 ]})))
    as (d & w' & Hrun & Hnil & _).
  by exists d, w'.
Defined.

End Witnesses.

Section FurtherWitnesses.

Lemma world_of_genes_allocated :
  genes_allocated (gene_heap (world_of_genes []))
    [Some 1%positive; Some 2%positive].
Proof. repeat constructor; eexists; vm_compute; reflexivity. Qed.

Lemma New_makes_a_fresh_genome_witness :
  exists d w',
    New [Some 1%positive; Some 2%positive] "OR" (world_of_genes []) = Ok d w' /\
    String_of d w' = Ok "a.b|OR|T.a" w'.
Proof.
  destruct (New_makes_a_fresh_genome [Some 1%positive; Some 2%positive] "OR"
              (world_of_genes []))
    as (d & w' & Hrun & _ & _ & _ & _ & _ & Hstring).
  exists d, w'. split; [exact Hrun|].
  rewrite (Hstring world_of_genes_allocated). reflexivity.
Defined.

Lemma merge_order_irrelevant_witness :
  merge_in_order {[ "a" := 1 ]} [("b", 3); ("a", 2)]
  = merge_maps {[ "a" := 1 ]} (Some {[ "a" := 2; "b" := 3 ]}).
Proof.
  apply merge_order_irrelevant. vm_compute. apply perm_swap.
Defined.

Lemma merge_adds_counts_witness :
  merge (Gene := RefGene.t) None (Some ∅) (world_of_genes []) 
  = Ok None (world_of_genes []) /\
  merge (Gene := RefGene.t) None (Some {[ "a" := 1 ]}) (world_of_genes [])
  = Abort (Panic "assignment to entry in nil map") (world_of_genes []).
Proof.
  split.
  - apply (merge_adds_counts (Some ∅) (world_of_genes [])). reflexivity.
  - apply (merge_adds_counts (Some {[ "a" := 1 ]}) (world_of_genes [])).
    vm_compute. discriminate.
Defined.

Lemma Eval_of_no_gene_panics_witness :
  EvalBool [] RefGene.registry 1%positive (world_of_genes [])
  = Abort (Panic "index out of range") (world_of_genes []) /\
  EvalMath RefGene.registry [] 1%positive (world_of_genes [])
  = Abort (Panic "index out of range") (world_of_genes []).
Proof.
  destruct (Eval_of_no_gene_panics RefGene.registry 1%positive
              {| Genes := []; LinkFunc := "OR"; Score := 0%float;
                 SymbolMap := None |} (world_of_genes []) eq_refl eq_refl)
    as [Hbool Hmath].
  split.
  - apply (Hbool [] RefGene.registry RefGene.OR). reflexivity.
  - apply (Hmath [] RefGene.OR). reflexivity.
Defined.

Lemma Eval_of_one_gene_witness :
  result_of (EvalBool [] RefGene.registry 1%positive
               (world_of_genes [Some 2%positive]))
  = inl true.
Proof.
  destruct (Eval_of_one_gene RefGene.registry 1%positive
              {| Genes := [Some 2%positive]; LinkFunc := "OR";
                 Score := 0%float; SymbolMap := None |}
              2%positive RefGene.gene_T (world_of_genes [Some 2%positive])
              eq_refl eq_refl eq_refl) as [Hbool _].
  rewrite (Hbool [] RefGene.registry RefGene.OR eq_refl). reflexivity.
Defined.

Lemma Mutate_without_genes_panics_witness :
  Mutate 5 1%positive (world_of_genes [])
  = Abort (Panic "invalid argument to Intn") (world_of_genes []).
Proof.
  apply (Mutate_without_genes_panics 5 1%positive
           {| Genes := []; LinkFunc := "OR"; Score := 0%float;
              SymbolMap := None |}).
  - reflexivity.
  - reflexivity.
  - lia.
Defined.

Lemma Mutate_touches_only_its_genes_witness :
  genome_heap (world_of (Mutate 3 1%positive
                           (world_of_genes [Some 1%positive])))
  = genome_heap (world_of_genes [Some 1%positive]) /\
  gene_heap (world_of (Mutate 3 1%positive
                         (world_of_genes [Some 1%positive]))) !! 2%positive
  = Some RefGene.gene_T.
Proof.
  destruct (Mutate_touches_only_its_genes 3 1%positive
              {| Genes := [Some 1%positive]; LinkFunc := "OR";
                 Score := 0%float; SymbolMap := None |}
              (world_of_genes [Some 1%positive])
              (world_of (Mutate 3 1%positive
                           (world_of_genes [Some 1%positive]))))
    as (Hgh & _ & _ & Hgenes).
  - reflexivity.
  - vm_compute. reflexivity.
  - split; [exact Hgh|]. rewrite Hgenes; [reflexivity|].
    intros Hin. apply list_elem_of_singleton in Hin. discriminate.
Defined.

Lemma Evaluate_stops_with_the_scoring_witness :
  Evaluate (Some score_panics) 7%positive 1%positive (world_of_genes [])
  = Abort (Panic "no score") (world_of_genes []).
Proof.
  apply (Evaluate_stops_with_the_scoring score_panics). reflexivity.
Defined.

Lemma String_of_few_genes_witness :
  String {| Genes := []; LinkFunc := "OR"; Score := 0%float;
            SymbolMap := None |} (world_of_genes [])
  = Ok EmptyString (world_of_genes []) /\
  String {| Genes := [Some 1%positive]; LinkFunc := "OR"; Score := 0%float;
            SymbolMap := None |} (world_of_genes [])
  = Ok "a.b" (world_of_genes []).
Proof.
  split.
  - apply (String_of_few_genes
             {| Genes := []; LinkFunc := "OR"; Score := 0%float;
                SymbolMap := None |} (world_of_genes [])). reflexivity.
  - rewrite (proj2 (String_of_few_genes
                      {| Genes := [Some 1%positive]; LinkFunc := "OR";
                         Score := 0%float; SymbolMap := None |}
                      (world_of_genes [])) 1%positive RefGene.gene_ab
               eq_refl eq_refl).
    reflexivity.
Defined.

Lemma Dup_leaves_two_sound_genomes_witness :
  exists d D w',
    Dup (Some 1%positive) (world_of_genes [Some 1%positive; Some 2%positive])
    = Ok (Some d) w' /\
    genome_heap w' !! d = Some D /\
    genes_allocated (gene_heap w') (Genes D).
Proof.
  destruct (Dup_leaves_two_sound_genomes 1%positive
              {| Genes := [Some 1%positive; Some 2%positive]; LinkFunc := "OR";
                 Score := 0%float; SymbolMap := None |}
              (world_of_genes [Some 1%positive; Some 2%positive])
              eq_refl world_of_genes_allocated)
    as (d & D & w' & Hrun & _ & Hd & _ & _ & Hall & _).
  by exists d, D, w'.
Defined.

Lemma SymbolCount_is_blind_to_gene_order_witness :
  exists v w1 w2,
    SymbolCount "a" 1%positive world_two_orders = Ok v w1 /\
    SymbolCount "a" 2%positive world_two_orders = Ok v w2.
Proof.
  apply (SymbolCount_is_blind_to_gene_order "a" 1%positive 2%positive
           {| Genes := [Some 1%positive; Some 2%positive]; LinkFunc := "OR";
              Score := 0%float; SymbolMap := None |}
           {| Genes := [Some 2%positive; Some 1%positive]; LinkFunc := "OR";
              Score := 0%float; SymbolMap := None |}).
  - apply RefGene_accounting_stable.
  - reflexivity.
  - reflexivity.
  - reflexivity.
  - reflexivity.
  - reflexivity.
  - simpl. apply perm_swap.
  - apply world_of_genes_allocated.
Defined.

Lemma SymbolCount_of_no_gene_witness :
  exists w', SymbolCount "OR" 1%positive (world_of_genes []) = Ok (-1) w'.
Proof.
  apply (SymbolCount_of_no_gene "OR" 1%positive
           {| Genes := []; LinkFunc := "OR"; Score := 0%float;
              SymbolMap := None |}); reflexivity.
Defined.

Lemma SymbolCount_changes_only_the_map_witness :
  trace (world_of (SymbolCount "a" 1%positive
                     (world_of_genes [Some 1%positive; Some 2%positive])))
  = [] /\
  dom (gene_heap (world_of (SymbolCount "a" 1%positive
                              (world_of_genes [Some 1%positive;
                                               Some 2%positive]))))
  = dom (gene_heap (world_of_genes [Some 1%positive; Some 2%positive])).
Proof.
  destruct (SymbolCount_changes_only_the_map "a" 1%positive
              {| Genes := [Some 1%positive; Some 2%positive]; LinkFunc := "OR";
                 Score := 0%float; SymbolMap := None |}
              (world_of_genes [Some 1%positive; Some 2%positive]) 2
              (world_of (SymbolCount "a" 1%positive
                           (world_of_genes [Some 1%positive;
                                            Some 2%positive]))))
    as (m & _ & _ & Htr & _ & Hdom & _).
  - reflexivity.
  - vm_compute. reflexivity.
  - by split.
Defined.

Lemma SymbolCount_answers_from_the_first_call_witness :
  exists v1 w1,
    SymbolCount "a" 1%positive
      (world_of_genes [Some 1%positive; Some 2%positive]) = Ok v1 w1 /\
    SymbolCount "T" 1%positive w1 = Ok 1 w1.
Proof.
  destruct (SymbolCount_answers_from_the_first_call "a" "T" 1%positive
              {| Genes := [Some 1%positive; Some 2%positive]; LinkFunc := "OR";
                 Score := 0%float; SymbolMap := None |}
              (world_of_genes [Some 1%positive; Some 2%positive]))
    as (v1 & w1 & Hfirst & Hsecond).
  - reflexivity.
  - reflexivity.
  - simpl. apply NoDup_cons. split; [|apply NoDup_singleton].
    intros Hin%list_elem_of_singleton. discriminate.
  - apply world_of_genes_allocated.
  - exists v1, w1. split; [exact Hfirst|]. rewrite Hsecond. f_equal.
Defined.

End FurtherWitnesses.

End genome.
